(** * TaskManagerWebApp: the task store and its HTTP layer

    Two back ends implement the same CRUD contract:
    - [InMemory]: the Express server (server.js) that keeps the tasks in a
      module-level array next to the counter [nextId];
    - [Jpa]: the Spring controller [TaskController] on top of a
      [TaskRepository].

    JavaScript strings are sequences of UTF-16 code units, request bodies are
    parsed JSON values, and every handler is a function from the store to a
    response and the next store. *)

From Stdlib Require Import ZArith NArith String Ascii List.
From stdpp Require Import base numbers option list gmap strings sorting.

Set Warnings "-register-all".
Local Open Scope Z_scope.

(** ** JavaScript strings *)

(** A JavaScript (and Java) string: its UTF-16 code units. *)
Definition jsstring : Type := list N.

(** The code units of an ASCII literal. *)
Definition u16 (s : string) : jsstring :=
  N_of_ascii <$> list_ascii_of_string s.

(** ECMAScript [WhiteSpace] and [LineTerminator] code points, the characters
    [String.prototype.trim] strips and [parseInt] skips. *)
Definition is_whitespace (c : N) : bool :=
  ((c =? 0x09) || (c =? 0x0A) || (c =? 0x0B) || (c =? 0x0C) || (c =? 0x0D)
   || (c =? 0x20) || (c =? 0xA0) || (c =? 0x1680)
   || ((0x2000 <=? c) && (c <=? 0x200A))
   || (c =? 0x2028) || (c =? 0x2029) || (c =? 0x202F) || (c =? 0x205F)
   || (c =? 0x3000) || (c =? 0xFEFF))%N.

Fixpoint trimStart (s : jsstring) : jsstring :=
  match s with
  | c :: r => if is_whitespace c then trimStart r else s
  | [] => []
  end.

Definition trimEnd (s : jsstring) : jsstring :=
  reverse (trimStart (reverse s)).

(** [s.trim()] *)
Definition trim (s : jsstring) : jsstring := trimEnd (trimStart s).

(** [c] is a decimal digit; its value. *)
Definition digit (c : N) : option Z :=
  if ((0x30 <=? c) && (c <=? 0x39))%N then Some (Z.of_N c - 0x30) else None.

(** The longest prefix of decimal digits, read as a number with [acc] as the
    digits already seen; [any] tells whether a digit was seen at all. *)
Fixpoint digits (s : jsstring) (acc : Z) (any : bool) : option Z :=
  match s with
  | c :: r =>
      match digit c with
      | Some d => digits r (10 * acc + d) true
      | None => if any then Some acc else None
      end
  | [] => if any then Some acc else None
  end.

(** [parseInt(s, 10)]: leading white space is skipped, one sign is read, then
    the longest run of digits; [None] is [NaN].  Numbers are taken in the range
    where a double holds every integer exactly. *)
Definition parseInt (s : jsstring) : option Z :=
  match trimStart s with
  | 0x2D%N :: r => Z.opp <$> digits r 0 false
  | 0x2B%N :: r => digits r 0 false
  | r => digits r 0 false
  end.

(** ASCII case folding, as the case-insensitive route patterns of Express
    compare path characters. *)
Definition fold_case (c : N) : N :=
  if ((0x41 <=? c) && (c <=? 0x5A))%N then (c + 0x20)%N else c.

Definition same_segment (lit : string) (seg : jsstring) : bool :=
  bool_decide (fold_case <$> seg = fold_case <$> u16 lit).

(** ** Escapes and paths *)

Definition hex_digit (c : N) : option N :=
  if ((0x30 <=? c) && (c <=? 0x39))%N then Some (c - 0x30)%N
  else if ((0x41 <=? c) && (c <=? 0x46))%N then Some (c - 0x37)%N
  else if ((0x61 <=? c) && (c <=? 0x66))%N then Some (c - 0x57)%N
  else None.

(** An escape [%XX] at the head of [s]: its byte and the rest. *)
Definition escape (s : jsstring) : option (N * jsstring) :=
  match s with
  | 0x25%N :: h :: l :: r =>
      match hex_digit h, hex_digit l with
      | Some a, Some b => Some (16 * a + b, r)%N
      | _, _ => None
      end
  | _ => None
  end.

(** [n] escaped continuation bytes of a UTF-8 sequence. *)
Fixpoint continuation (n : nat) (s : jsstring) : option (list N * jsstring) :=
  match n with
  | O => Some ([], s)
  | S m =>
      match escape s with
      | Some (b, r) =>
          if ((0x80 <=? b) && (b <=? 0xBF))%N then
            match continuation m r with
            | Some (bs, r') => Some (b :: bs, r')
            | None => None
            end
          else None
      | None => None
      end
  end.

(** The number of continuation bytes a lead byte announces. *)
Definition sequence_length (b : N) : option nat :=
  if (b <? 0xC0)%N then None
  else if (b <? 0xE0)%N then Some 1%nat
  else if (b <? 0xF0)%N then Some 2%nat
  else if (b <? 0xF8)%N then Some 3%nat
  else None.

Definition code_point (lead : N) (bs : list N) : N :=
  fold_left (λ v b, 64 * v + (b - 0x80))%N bs
    (lead - match length bs with
            | 1%nat => 0xC0
            | 2%nat => 0xE0
            | _ => 0xF0
            end)%N.

(** The sequence is the shortest one of its code point, which is no
    surrogate and lies in the Unicode range. *)
Definition well_formed (n : nat) (v : N) : bool :=
  match n with
  | 1%nat => (0x80 <=? v)%N
  | 2%nat => (0x800 <=? v)%N && negb ((0xD800 <=? v) && (v <=? 0xDFFF))%N
  | _ => (0x10000 <=? v)%N && (v <=? 0x10FFFF)%N
  end.

Definition utf16 (v : N) : jsstring :=
  if (v <? 0x10000)%N then [v]
  else [0xD800 + (v - 0x10000) / 0x400; 0xDC00 + (v - 0x10000) mod 0x400]%N.

Fixpoint decode (fuel : nat) (s : jsstring) : option jsstring :=
  match fuel, s with
  | _, [] => Some []
  | O, _ => None
  | S f, c :: r =>
      if bool_decide (c = 0x25%N) then
        match escape s with
        | None => None
        | Some (b, r1) =>
            if (b <? 0x80)%N then cons b <$> decode f r1
            else
              match sequence_length b with
              | None => None
              | Some n =>
                  match continuation n r1 with
                  | None => None
                  | Some (bs, r2) =>
                      if well_formed n (code_point b bs)
                      then app (utf16 (code_point b bs)) <$> decode f r2
                      else None
                  end
              end
        end
      else cons c <$> decode f r
  end.

(** [decodeURIComponent(s)]; [None] is the [URIError] it throws on a malformed
    escape. *)
Definition decodeURIComponent (s : jsstring) : option jsstring :=
  decode (length s) s.

(** [s.split(sep)] *)
Fixpoint split_on (sep : N) (s : jsstring) : list jsstring :=
  match s with
  | [] => [[]]
  | c :: r =>
      if bool_decide (c = sep) then [] :: split_on sep r
      else match split_on sep r with
           | x :: xs => (c :: x) :: xs
           | [] => [[c]]
           end
  end.

Definition dot : jsstring := [0x2E%N].
Definition dotdot : jsstring := [0x2E%N; 0x2E%N].

(** The segments [path.normalize] keeps of a relative POSIX path, given the
    pieces between its slashes: empty pieces and [.] are dropped, [..] removes
    the segment before it and stays where there is none.  [stack] holds the
    segments kept so far, the last one first. *)
Fixpoint normalize (stack pieces : list jsstring) : list jsstring :=
  match pieces with
  | [] => reverse stack
  | x :: r =>
      if bool_decide (x = []) || bool_decide (x = dot) then normalize stack r
      else if bool_decide (x = dotdot) then
        match stack with
        | top :: rest =>
            if bool_decide (top = dotdot) then normalize (x :: stack) r
            else normalize rest r
        | [] => normalize [x] r
        end
      else normalize (x :: stack) r
  end.

(** A segment that has [..] between two separators, slash or backslash, or
    between one and an end: the pattern for which [send] answers 403. *)
Definition climbs (x : jsstring) : bool :=
  bool_decide (dotdot ∈ split_on 0x5C x).

(** Text whose characters mean nothing to the decoding and the
    normalisation of a path: no NUL, [%], [.], [/] or [\]. *)
Definition plain (x : jsstring) : bool :=
  negb (bool_decide (x = []))
  && forallb (λ c, negb (bool_decide (c ∈ [0; 0x25; 0x2E; 0x2F; 0x5C]%N))) x.

(** A run of decimal digits, as an id is written in a path. *)
Definition numeral (x : jsstring) : bool :=
  negb (bool_decide (x = []))
  && forallb (λ c, (0x30 <=? c) && (c <=? 0x39))%N x.

(** ** JSON values *)

(** What [express.json()] leaves in [req.body], and what a task field can hold.
    Numbers are integer-valued; an object is a finite map from keys to
    values. *)
Inductive JSON : Type :=
  | JNull
  | JBool (b : bool)
  | JNum (n : Z)
  | JStr (s : jsstring)
  | JArr (l : list JSON)
  | JObj (m : gmap jsstring JSON).

(** [v[k]] for a parsed body; [None] is [undefined].  The body parser hands
    over objects and arrays only, and an array has neither [title] nor
    [completed]. *)
Definition prop (k : string) (v : JSON) : option JSON :=
  match v with
  | JObj m => m !! u16 k
  | _ => None
  end.

(** [ToBoolean]: what [!!v] evaluates to. *)
Definition truthy (v : JSON) : bool :=
  match v with
  | JNull => false
  | JBool b => b
  | JNum n => negb (n =? 0)
  | JStr s => negb (bool_decide (s = []))
  | JArr _ | JObj _ => true
  end.

Definition is_boolean (v : JSON) : Prop :=
  match v with JBool _ => True | _ => False end.

(** A stored title is well formed when it is a string, is not empty and
    carries no white space at either end. *)
Definition trimmed_title (s : jsstring) : Prop := s ≠ [] ∧ trim s = s.

Definition title_ok (v : JSON) : Prop :=
  match v with JStr s => trimmed_title s | _ => False end.

(** ** HTTP vocabulary shared by both back ends *)

Inductive Method := GET | HEAD | POST | PUT | DELETE | PATCH | OPTIONS.

#[global] Instance Method_eq_dec : EqDecision Method.
Proof. solve_decision. Defined.

(** ** The in-memory server (server.js) *)

Module InMemory.

Record Task := mkTask {
  id : Z;
  title : JSON;
  completed : JSON;
  createdAt : jsstring
}.

(** [let tasks = []; let nextId = 1;]  The counter is taken in the range
    where a double holds every integer exactly. *)
Record Store := mkStore {
  tasks : list Task;
  nextId : Z
}.

Definition init : Store := {| tasks := []; nextId := 1 |}.

Inductive Payload :=
  | OneTask (t : Task)              (* res.json(task) *)
  | AllTasks (l : list Task)        (* res.json(tasks) *)
  | Error (msg : string)            (* res.json({ error: msg }) *)
  | File (name : jsstring)          (* a file below public/ *)
  | Thrown (msg : string)           (* the error page of Express *)
  | Empty
  | Moved.                          (* the page of a redirect *)

Record Response := mkResponse {
  status : Z;
  payload : Payload
}.

Record Request := mkRequest {
  method : Method;
  path : list jsstring;      (* the pieces of the URL path between its
                                slashes, as sent *)
  body : JSON;
  now : jsstring             (* what new Date().toISOString() returns *)
}.

(** [app.get('/api/tasks', ...)] *)
Definition get_tasks (s : Store) : Response * Store :=
  ({| status := 200; payload := AllTasks (tasks s) |}, s).

(** [app.post('/api/tasks', ...)] *)
Definition post_tasks (clock : jsstring) (b : JSON) (s : Store)
  : Response * Store :=
  match prop "title" b with
  | Some (JStr t) =>
      if bool_decide (t = []) || bool_decide (trim t = []) then
        ({| status := 400; payload := Error "title required" |}, s)
      else
        let task := {| id := nextId s; title := JStr (trim t);
                       completed := JBool false; createdAt := clock |} in
        ({| status := 201; payload := OneTask task |},
         {| tasks := tasks s ++ [task]; nextId := nextId s + 1 |})
  | Some v =>
      if truthy v then
        (* title.trim is not a function *)
        ({| status := 500; payload := Thrown "TypeError" |}, s)
      else ({| status := 400; payload := Error "title required" |}, s)
  | None => ({| status := 400; payload := Error "title required" |}, s)
  end.

(** [tasks.find(t => t.id === id)] together with its index, which is what
    [tasks.findIndex] returns; [NaN] equals no id. *)
Definition find (n : option Z) (l : list Task) : option (nat * Task) :=
  match n with
  | Some i => list_find (λ t, id t = i) l
  | None => None
  end.

(** [app.put('/api/tasks/:id', ...)]: the task found is updated in place. *)
Definition put_task (param : jsstring) (b : JSON) (s : Store)
  : Response * Store :=
  match find (parseInt param) (tasks s) with
  | None => ({| status := 404; payload := Error "not found" |}, s)
  | Some (i, task) =>
      let task1 :=
        match prop "title" b with
        | Some v => {| id := id task; title := v;
                       completed := completed task;
                       createdAt := createdAt task |}
        | None => task
        end in
      let task2 :=
        match prop "completed" b with
        | Some v => {| id := id task1; title := title task1;
                       completed := JBool (truthy v);
                       createdAt := createdAt task1 |}
        | None => task1
        end in
      ({| status := 200; payload := OneTask task2 |},
       {| tasks := <[i := task2]> (tasks s); nextId := nextId s |})
  end.

(** [app.delete('/api/tasks/:id', ...)] *)
Definition delete_task (param : jsstring) (s : Store) : Response * Store :=
  match find (parseInt param) (tasks s) with
  | None => ({| status := 404; payload := Error "not found" |}, s)
  | Some (idx, removed) =>
      ({| status := 200; payload := OneTask removed |},
       {| tasks := delete idx (tasks s); nextId := nextId s |})
  end.

(** [app.get('*', ...)]: [res.sendFile] of public/index.html, which ends in the
    404 of the error handler when the file is missing. *)
Definition get_any (public : list jsstring) (s : Store) : Response * Store :=
  if bool_decide (u16 "index.html" ∈ public) then
    ({| status := 200; payload := File (u16 "index.html") |}, s)
  else ({| status := 404; payload := Thrown "ENOENT" |}, s).

Definition reads (m : Method) : bool :=
  bool_decide (m = GET) || bool_decide (m = HEAD).

(** The path ends with a slash. *)
Definition trailing_slash (p : list jsstring) : bool :=
  match last p with
  | Some x => bool_decide (x = [])
  | None => true
  end.

(** [express.static(public)] for a GET or HEAD, with [public] the names of
    the files of public/, an existing directory without subdirectories on a
    POSIX file system.  As [send] does, the path is decoded, cleared of [.]
    and [..] by [path.normalize] and looked up below the directory; a path
    that names the directory itself gets index.html when it ends with a
    slash, and a redirect to itself with a slash otherwise.  [None] is the
    call of [next()], which is how the middleware ends every failure: a path
    that cannot be decoded or holds a NUL (400), that climbs out of the
    directory (403), that names a file whose name starts with a dot, or that
    names no file (404). *)
Definition static (public : list jsstring) (p : list jsstring)
  : option Response :=
  match mapM decodeURIComponent p with
  | None => None
  | Some decoded =>
      let pieces := decoded ≫= split_on 0x2F in
      if bool_decide (Exists (λ x, 0%N ∈ x) pieces) then None
      else
        let kept := normalize [] pieces in
        if existsb climbs kept then None
        else
          match kept with
          | [] =>
              if trailing_slash p then
                if bool_decide (u16 "index.html" ∈ public)
                then Some {| status := 200;
                             payload := File (u16 "index.html") |}
                else None
              else Some {| status := 301; payload := Moved |}
          | [name] =>
              if trailing_slash pieces then None
              else if bool_decide (head name = Some 0x2E%N) then None
              else if bool_decide (name ∈ public)
              then Some {| status := 200; payload := File name |}
              else None
          | _ => None
          end
  end.

(** The pattern of ['/api/tasks']: the two literals, whatever the case of
    their letters, with or without a slash at the end. *)
Definition tasks_route (p : list jsstring) : bool :=
  match p with
  | [a; t] | [a; t; []] => same_segment "api" a && same_segment "tasks" t
  | _ => false
  end.

(** The pattern of ['/api/tasks/:id']: the text captured for [id], not yet
    decoded. *)
Definition id_route (p : list jsstring) : option jsstring :=
  match p with
  | [a; t; i] | [a; t; i; []] =>
      if same_segment "api" a && same_segment "tasks" t
         && negb (bool_decide (i = []))
      then Some i else None
  | _ => None
  end.

(** The middleware and routes of [app], in the order they are registered, as
    the router of Express 4 runs them.  [path r] holds the pieces of the
    request path between its slashes, as sent: the literals of a pattern are
    compared with them as they are, and what a pattern captures is decoded
    before the method is looked at; a capture that cannot be decoded ends
    the request with 400, whatever its method. *)
Definition handle (public : list jsstring) (r : Request) (s : Store)
  : Response * Store :=
  let bad_request := ({| status := 400; payload := Thrown "URIError" |}, s) in
  (* app.get('*') captures the whole path; nothing is left after it *)
  let last_route :=
    match mapM decodeURIComponent (path r) with
    | None => bad_request
    | Some _ =>
        if reads (method r) then get_any public s
        else ({| status := 404; payload := Empty |}, s)
    end in
  if bool_decide (method r = OPTIONS) then
    ({| status := 204; payload := Empty |}, s)            (* cors() *)
  else
    match (if reads (method r) then static public (path r) else None) with
    | Some resp => (resp, s)
    | None =>
        if tasks_route (path r) then
          match method r with
          | GET | HEAD => get_tasks s
          | POST => post_tasks (now r) (body r) s
          | _ => last_route
          end
        else
          match id_route (path r) with
          | Some i =>
              match decodeURIComponent i with
              | None => bad_request
              | Some param =>
                  match method r with
                  | PUT => put_task param (body r) s
                  | DELETE => delete_task param s
                  | _ => last_route
                  end
              end
          | None => last_route
          end
    end.

(** A session: the requests are served one after the other. *)
Fixpoint serve (public : list jsstring) (rs : list Request) (s : Store)
  : list Response * Store :=
  match rs with
  | [] => ([], s)
  | r :: rest =>
      let '(resp, s1) := handle public r s in
      let '(resps, s2) := serve public rest s1 in
      (resp :: resps, s2)
  end.

(** The ids handed out by the successful creations of a session. *)
Definition created_id (resp : Response) : option Z :=
  if bool_decide (status resp = 201) then
    match payload resp with
    | OneTask t => Some (id t)
    | _ => None
    end
  else None.

Definition created_ids (resps : list Response) : list Z :=
  omap created_id resps.

End InMemory.

(** ** The Spring controller over a JPA repository *)

Module Jpa.

Inductive TaskStatus := TODO | IN_PROGRESS | DONE.

Record LocalDate := mkDate { year : Z; month : Z; day : Z }.

(** Modelled from the spec: the entity class Task.java is not among the
    sources; its attributes are those of the data model (an id assigned by
    the store, a title, an optional description, a status that is [TODO]
    unless given, an optional due date). *)
Record Task := mkTask {
  id : option Z;                  (* Long id, null until saved *)
  title : option jsstring;
  description : option jsstring;
  status : TaskStatus;
  dueDate : option LocalDate
}.

(** Modelled from the spec: the fields of a request body as Jackson binds
    them onto a Task; [None] is an omitted field.  The id is assigned by the
    store and is not part of a body. *)
Record TaskBody := mkBody {
  title_field : option jsstring;
  description_field : option jsstring;
  status_field : option TaskStatus;
  dueDate_field : option LocalDate
}.

(** Modelled from the spec: binding a body onto [new Task()]; title and
    description are trimmed, an omitted status keeps the default. *)
Definition bind (b : TaskBody) : Task :=
  {| id := None;
     title := trim <$> title_field b;
     description := trim <$> description_field b;
     status := default TODO (status_field b);
     dueDate := dueDate_field b |}.

(** Modelled from the spec: the bean-validation constraints of Task.java
    that [@Valid] checks: a title of trimmed length 1 to 100, a description
    of trimmed length at most 500. *)
Definition valid (t : Task) : bool :=
  match title t with
  | Some s => bool_decide (1 ≤ length (trim s) ≤ 100)%nat
  | None => false
  end
  && match description t with
     | Some d => bool_decide (length (trim d) ≤ 500)%nat
     | None => true
     end.

(** The columns of a row of the task table; the primary key is the key of
    the table. *)
Record Row := mkRow {
  title_col : option jsstring;
  description_col : option jsstring;
  status_col : TaskStatus;
  due_date_col : option LocalDate
}.

Definition columns (t : Task) : Row :=
  {| title_col := title t; description_col := description t;
     status_col := status t; due_date_col := dueDate t |}.

Definition entity (i : Z) (r : Row) : Task :=
  {| id := Some i; title := title_col r; description := description_col r;
     status := status_col r; dueDate := due_date_col r |}.

(** Modelled from the spec: TaskRepository.java (a Spring Data
    [JpaRepository<Task, Long>]) is not among the sources.  The table maps
    primary keys to rows, and [next] is the value the identity generator
    hands out next, so that a key is never assigned twice. *)
Record Repo := mkRepo {
  rows : gmap Z Row;
  next : Z
}.

Definition empty : Repo := {| rows := ∅; next := 1 |}.

Definition findById (i : Z) (r : Repo) : option Task :=
  entity i <$> rows r !! i.

Definition findAll (r : Repo) : list Task :=
  (λ kv, entity kv.1 kv.2) <$> map_to_list (rows r).

Definition insert_new (t : Task) (r : Repo) : Task * Repo :=
  (entity (next r) (columns t),
   {| rows := <[next r := columns t]> (rows r); next := next r + 1 |}).

(** [save]: an entity without id is inserted under a generated key, an
    entity whose row exists overwrites that row, and an entity whose row is
    gone is inserted afresh. *)
Definition save (t : Task) (r : Repo) : Task * Repo :=
  match id t with
  | None => insert_new t r
  | Some i =>
      match rows r !! i with
      | Some _ => (t, {| rows := <[i := columns t]> (rows r);
                        next := next r |})
      | None => insert_new t r
      end
  end.

Definition deleteById (i : Z) (r : Repo) : Repo :=
  {| rows := delete i (rows r); next := next r |}.

(** The [ResponseEntity] a handler returns. *)
Inductive Response :=
  | Ok (t : Task)               (* 200 with the task *)
  | OkAll (l : list Task)       (* 200 with the list *)
  | Created (t : Task)          (* 201 with the saved task *)
  | NoContent                   (* 204 *)
  | BadRequest                  (* 400, raised by @Valid *)
  | NotFound.                   (* 404 *)

(** [TaskController.all] *)
Definition all (r : Repo) : Response * Repo := (OkAll (findAll r), r).

(** [TaskController.getById] *)
Definition getById (i : Z) (r : Repo) : Response * Repo :=
  (match findById i r with Some t => Ok t | None => NotFound end, r).

(** [TaskController.create], in the copy of the controller that maps POST *)
Definition create (b : TaskBody) (r : Repo) : Response * Repo :=
  let task := bind b in
  if valid task then
    let '(saved, r1) := save task r in (Created saved, r1)
  else (BadRequest, r).

(** [TaskController.update] *)
Definition update (i : Z) (b : TaskBody) (r : Repo) : Response * Repo :=
  let incoming := bind b in
  if valid incoming then
    match findById i r with
    | Some existing =>
        let existing1 :=
          {| id := id existing;
             title := title incoming;
             description := description incoming;
             status := status incoming;
             dueDate := dueDate incoming |} in
        let '(saved, r1) := save existing1 r in (Ok saved, r1)
    | None => (NotFound, r)
    end
  else (BadRequest, r).

(** [TaskController.delete] *)
Definition delete (i : Z) (r : Repo) : Response * Repo :=
  match findById i r with
  | Some _ => (NoContent, deleteById i r)
  | None => (NotFound, r)
  end.

Inductive Call :=
  | CallAll
  | CallGetById (i : Z)
  | CallCreate (b : TaskBody)
  | CallUpdate (i : Z) (b : TaskBody)
  | CallDelete (i : Z).

Definition call (c : Call) (r : Repo) : Response * Repo :=
  match c with
  | CallAll => all r
  | CallGetById i => getById i r
  | CallCreate b => create b r
  | CallUpdate i b => update i b r
  | CallDelete i => delete i r
  end.

Fixpoint calls (cs : list Call) (r : Repo) : list Response * Repo :=
  match cs with
  | [] => ([], r)
  | c :: rest =>
      let '(resp, r1) := call c r in
      let '(resps, r2) := calls rest r1 in
      (resp :: resps, r2)
  end.

(** The ids returned by the successful creations of a session. *)
Definition created_id (resp : Response) : option Z :=
  match resp with
  | Created t => id t
  | _ => None
  end.

Definition created_ids (resps : list Response) : list Z :=
  omap created_id resps.

End Jpa.

(** ** Building requests *)

(** The object a JSON text with these members parses to; of two members with
    one key the later one wins. *)
Definition object (members : list (string * JSON)) : JSON :=
  JObj (foldl (λ m kv, <[u16 kv.1 := kv.2]> m) ∅ members).

Definition request (m : Method) (p : list string) (b : JSON) (clock : string)
  : InMemory.Request :=
  {| InMemory.method := m; InMemory.path := u16 <$> p;
     InMemory.body := b; InMemory.now := u16 clock |}.

(** The files of public/ as deployed. *)
Definition public_dir : list jsstring :=
  [u16 "index.html"; u16 "app.js"; u16 "style.css"].

(** ** Properties of stores *)

(** Every stored task has a boolean [completed]. *)
Definition completed_boolean (s : InMemory.Store) : Prop :=
  Forall (λ t, is_boolean (InMemory.completed t)) (InMemory.tasks s).

(** Every stored task has a well-formed title. *)
Definition titles_ok (s : InMemory.Store) : Prop :=
  Forall (λ t, title_ok (InMemory.title t)) (InMemory.tasks s).

(** The ids in use lie below the counter and no two tasks share one. *)
Definition ids_fresh (s : InMemory.Store) : Prop :=
  Forall (λ t, InMemory.id t < InMemory.nextId s) (InMemory.tasks s)
  ∧ NoDup (InMemory.id <$> InMemory.tasks s).

(** The stores a server started on the empty array can be in. *)
Definition reachable (s : InMemory.Store) : Prop :=
  ∃ public rs, s = (InMemory.serve public rs InMemory.init).2.

(** The keys of the task table lie below the identity generator. *)
Definition keys_below (r : Jpa.Repo) : Prop :=
  ∀ k, is_Some (Jpa.rows r !! k) → k < Jpa.next r.

(** The id [n] was handed out and no stored task carries it any more. *)
Definition retired (n : Z) (s : InMemory.Store) : Prop :=
  n < InMemory.nextId s ∧ Forall (λ t, InMemory.id t ≠ n) (InMemory.tasks s).

(** The key [i] was handed out and its row is gone. *)
Definition retired_key (i : Z) (r : Jpa.Repo) : Prop :=
  i < Jpa.next r ∧ Jpa.rows r !! i = None.

(** ** Sample data *)

Definition milk : InMemory.Task :=
  {| InMemory.id := 1; InMemory.title := JStr (u16 "Buy milk");
     InMemory.completed := JBool false;
     InMemory.createdAt := u16 "2024-05-01T09:00:00.000Z" |}.

(** The store after one creation. *)
Definition one_task : InMemory.Store :=
  {| InMemory.tasks := [milk]; InMemory.nextId := 2 |}.

Definition post_milk : InMemory.Request :=
  request POST ["api"; "tasks"]%string
    (object [("title", JStr (u16 "Buy milk"))]%string)
    "2024-05-01T09:00:00.000Z".

(** A body with a title and nothing else. *)
Definition titled (s : jsstring) : Jpa.TaskBody :=
  {| Jpa.title_field := Some s; Jpa.description_field := None;
     Jpa.status_field := None; Jpa.dueDate_field := None |}.

(** ** Numbers as text *)

(** The decimal digits of a natural number, most significant first; [fuel]
    bounds their number. *)
Fixpoint decimal (fuel : nat) (n : Z) : jsstring :=
  match fuel with
  | O => []
  | S f =>
      if n <? 10 then [Z.to_N (0x30 + n)]
      else decimal f (n / 10) ++ [Z.to_N (0x30 + n mod 10)]
  end.

(** [Number.isSafeInteger(n)]: the range in which a double holds every
    integer, and in which the ids and counters of the model are taken. *)
Definition safe_integer (n : Z) : Prop := Z.abs n < 2 ^ 53.

(** [String(n)] for a safe integer [n], which is what ['/tasks/' + task.id]
    appends to the path: the decimal digits, after a minus sign when [n] is
    negative.  Outside that range a double is written with the fewest digits
    that identify it, and with an exponent from 10^21 on; this definition
    does not follow it there. *)
Definition number_to_string (n : Z) : jsstring :=
  if n <? 0 then 0x2D%N :: decimal (S (Z.to_nat (Z.log2 (- n)))) (- n)
  else decimal (S (Z.to_nat (Z.log2 n))) n.

(** ** The page script of the in-memory server (public/app.js) *)

Module Client.

(** [api(path, method, body)]: the request [fetch] sends to ['/api' + path];
    a call without body reaches the handlers with the empty object. *)
Definition api (clock : jsstring) (p : list jsstring) (m : Method)
    (b : option JSON) : InMemory.Request :=
  {| InMemory.method := m; InMemory.path := u16 "api" :: p;
     InMemory.body := default (object []) b; InMemory.now := clock |}.


(** [load()] sends [api('/tasks')]. *)
Definition load (clock : jsstring) : InMemory.Request :=
  api clock [u16 "tasks"] GET None.

(** One list entry as [render] builds it: the state of the check box, the
    value assigned to the text of the span, the class of the span, and the id
    its two listeners have captured. *)
Record Item := mkItem {
  checked : bool;
  textContent : JSON;
  className : string;
  subject : Z
}.

Definition entry (t : InMemory.Task) : Item :=
  {| checked := truthy (InMemory.completed t);
     textContent := InMemory.title t;
     className := if truthy (InMemory.completed t)
                  then "title completed" else "title";
     subject := InMemory.id t |}.

(** [render(tasks)]: [None] is the line that says there are no tasks yet;
    otherwise the entries of [tasks.slice().reverse()]. *)
Definition render (l : list InMemory.Task) : option (list Item) :=
  if bool_decide (length l = 0%nat) then None
  else Some (entry <$> reverse l).

(** The change listener of a check box, run when the user has set the box to
    [box]. *)
Definition on_change (clock : jsstring) (it : Item) (box : bool)
  : InMemory.Request :=
  api clock [u16 "tasks"; number_to_string (subject it)] PUT
    (Some (object [("completed", JBool box)]%string)).

(** The click listener of a delete button; [confirmed] is the answer to the
    confirmation dialogue. *)
Definition on_delete (clock : jsstring) (it : Item) (confirmed : bool)
  : option InMemory.Request :=
  if confirmed then
    Some (api clock [u16 "tasks"; number_to_string (subject it)] DELETE None)
  else None.

(** The submit listener of the form; [value] is the content of the title
    input. *)
Definition on_submit (clock : jsstring) (value : jsstring)
  : option InMemory.Request :=
  let title := trim value in
  if bool_decide (title = []) then None
  else Some (api clock [u16 "tasks"] POST
               (Some (object [("title", JStr title)]%string))).

(** The requests the page script can send. *)
Inductive sends : InMemory.Request → Prop :=
  | sends_load clock : sends (load clock)
  | sends_submit clock value r :
      on_submit clock value = Some r → sends r
  | sends_change clock it box : sends (on_change clock it box)
  | sends_delete clock it r :
      on_delete clock it true = Some r → sends r.

End Client.

(** ** The React front end (App.tsx, TaskForm.tsx) *)

Module Frontend.

#[global] Instance TaskStatus_eq_dec : EqDecision Jpa.TaskStatus.
Proof. solve_decision. Defined.

(** [interface Task] of App.tsx *)
Record Task := mkTask {
  id : option Z;
  title : jsstring;
  description : option jsstring;
  status : Jpa.TaskStatus;
  dueDate : option jsstring
}.

(** ['none' | 'status' | 'dueDate'] *)
Inductive SortBy := SortNone | SortStatus | SortDueDate.

(** [{ TODO: 0, IN_PROGRESS: 1, DONE: 2 }] *)
Definition order (s : Jpa.TaskStatus) : Z :=
  match s with
  | Jpa.TODO => 0
  | Jpa.IN_PROGRESS => 1
  | Jpa.DONE => 2
  end.

(** The numbers the comparator computes with: integers, the two infinities
    and [NaN]. *)
Inductive Num := Fin (z : Z) | PosInf | NegInf | NaN.

(** [a - b] *)
Definition minus (a b : Num) : Num :=
  match a, b with
  | NaN, _ | _, NaN => NaN
  | Fin x, Fin y => Fin (x - y)
  | PosInf, PosInf | NegInf, NegInf => NaN
  | PosInf, _ | _, NegInf => PosInf
  | NegInf, _ | _, PosInf => NegInf
  end.

(** [v < 0], the case in which [sort] puts the first argument of the
    comparator first; [NaN] counts as zero. *)
Definition negative (v : Num) : bool :=
  match v with
  | Fin z => z <? 0
  | NegInf => true
  | PosInf | NaN => false
  end.

Section Sorting.

(** [new Date(s).getTime()]: the time of a date string, or [NaN]. *)
Variable getTime : jsstring → Num.

(** [a.dueDate ? new Date(a.dueDate).getTime() : Infinity] *)
Definition due (t : Task) : Num :=
  match dueDate t with
  | Some d => if bool_decide (d = []) then PosInf else getTime d
  | None => PosInf
  end.

(** The comparator handed to [sort]. *)
Definition comparator (sortBy : SortBy) (a b : Task) : Num :=
  match sortBy with
  | SortStatus => Fin (order (status a) - order (status b))
  | SortDueDate => minus (due a) (due b)
  | SortNone => Fin 0
  end.

(** One step of a stable sort: [x], which came before every element of [l],
    goes behind the elements that the comparator puts strictly before it. *)
Fixpoint insert (cmp : Task → Task → Num) (x : Task) (l : list Task)
  : list Task :=
  match l with
  | [] => [x]
  | y :: r => if negative (cmp y x) then y :: insert cmp x r else x :: y :: r
  end.

(** [[...tasks].sort(cmp)]: [Array.prototype.sort] is stable, so for a
    comparator that is a consistent ordering the result is the one list that
    is sorted and keeps equal elements in their order. *)
Definition sort (cmp : Task → Task → Num) (l : list Task) : list Task :=
  foldr (insert cmp) [] l.

Definition sortedTasks (sortBy : SortBy) (tasks : list Task) : list Task :=
  sort (comparator sortBy) tasks.

End Sorting.

(** The state of the form of TaskForm.tsx. *)
Record Form := mkForm {
  title_state : jsstring;
  description_state : jsstring;
  status_state : Jpa.TaskStatus;
  dueDate_state : jsstring
}.

(** [validate()]: the record of error messages it sets; the form is valid
    when the record has no key. *)
Definition validate (f : Form) : gmap string string :=
  let e0 : gmap string string := ∅ in
  let e1 := if bool_decide (trim (title_state f) = [])
            then <["title" := "Title is required"]> e0 else e0 in
  let e2 := if bool_decide (100 < length (title_state f))%nat
            then <["title" := "Title must be 100 characters or less"]> e1
            else e1 in
  if bool_decide (500 < length (description_state f))%nat
  then <["description" := "Description must be 500 characters or less"]> e2
  else e2.

(** [handleSubmit]: the task handed to [onSave], if any. *)
Definition handleSubmit (f : Form) : option Task :=
  if bool_decide (validate f = ∅) then
    Some {| id := None;
            title := trim (title_state f);
            description :=
              (let d := trim (description_state f) in
               if bool_decide (d = []) then None else Some d);
            status := status_state f;
            dueDate := if bool_decide (dueDate_state f = []) then None
                       else Some (dueDate_state f) |}
  else None.

End Frontend.

(** ** More properties of stores *)

(** [b] does not come strictly before [a] under the comparator. *)
Definition not_before (cmp : Frontend.Task → Frontend.Task → Frontend.Num)
    (a b : Frontend.Task) : Prop :=
  Frontend.negative (cmp b a) = false.

(** The due date of the task is missing or has a time. *)
Definition dated (getTime : jsstring → Frontend.Num) (t : Frontend.Task)
  : Prop :=
  Frontend.due getTime t = Frontend.PosInf
  ∨ ∃ z, Frontend.due getTime t = Frontend.Fin z.

(** [x] is [y] with white space added at the ends. *)
Definition padded (x y : jsstring) : Prop :=
  ∃ pre post, x = pre ++ y ++ post
              ∧ Forall (λ c, is_whitespace c = true) pre
              ∧ Forall (λ c, is_whitespace c = true) post.

(** Neither the first nor the last character is white space. *)
Definition tight (y : jsstring) : Prop :=
  (∀ c r, y = c :: r → is_whitespace c = false)
  ∧ (∀ c r, y = r ++ [c] → is_whitespace c = false).

(** * Worked examples *)

Section Examples.

Example parseInt_digits : parseInt (u16 "42") = Some 42.
Proof. reflexivity. Qed.

Example parseInt_prefix : parseInt (u16 " -12abc") = Some (-12).
Proof. reflexivity. Qed.

Example parseInt_NaN : parseInt (u16 "abc") = None ∧ parseInt (u16 "") = None.
Proof. split; reflexivity. Qed.

Example trim_blanks : trim (u16 "  Buy milk ") = u16 "Buy milk".
Proof. reflexivity. Qed.

Example trim_inner : trim (u16 "a b") = u16 "a b" ∧ trim (u16 "   ") = [].
Proof. split; reflexivity. Qed.

Example object_last_member_wins :
  prop "title" (object [("title", JNum 1); ("title", JNum 2)]%string)
  = Some (JNum 2).
Proof. vm_compute. reflexivity. Qed.

(** Routing: a slash at the end of /api/tasks, an escape in a literal and in
    a parameter, and a path with half an escape. *)
Example routes_of_express :
  InMemory.status
    (InMemory.handle public_dir
       (request POST ["api"; "tasks"; ""]%string
          (object [("title", JStr (u16 "Buy milk"))]%string) "")
       InMemory.init).1 = 201
  ∧ (InMemory.handle public_dir
       (request GET ["api"; "tasks"; ""]%string (object []) "") one_task).1
    = {| InMemory.status := 200;
         InMemory.payload := InMemory.AllTasks [milk] |}
  ∧ InMemory.status
      (InMemory.handle public_dir
         (request PUT ["api"; "t%61sks"; "1"]%string (object []) "")
         one_task).1 = 404
  ∧ InMemory.handle public_dir
      (request DELETE ["API"; "Tasks"; "%31"]%string (object []) "") one_task
    = ({| InMemory.status := 200; InMemory.payload := InMemory.OneTask milk |},
       {| InMemory.tasks := []; InMemory.nextId := 2 |})
  ∧ InMemory.status
      (InMemory.handle public_dir
         (request DELETE ["api"; "tasks"; "%"]%string (object []) "")
         one_task).1 = 400
  ∧ InMemory.status
      (InMemory.handle public_dir
         (request GET ["%"]%string (object []) "") one_task).1 = 400.
Proof. vm_compute. repeat split; reflexivity. Qed.

(** Files: dot segments are resolved before the look-up, a path above the
    directory and a hidden file are left to the catch-all route, the
    directory without a slash is redirected, and the catch-all route needs
    index.html. *)
Example files_of_public :
  (InMemory.handle public_dir
     (request GET ["x"; ".."; "app.js"]%string (object []) "") one_task).1
  = {| InMemory.status := 200; InMemory.payload := InMemory.File (u16 "app.js") |}
  ∧ (InMemory.handle public_dir
       (request GET [".."; "server.js"]%string (object []) "") one_task).1
    = {| InMemory.status := 200;
         InMemory.payload := InMemory.File (u16 "index.html") |}
  ∧ (InMemory.handle (u16 ".env" :: public_dir)
       (request GET [".env"]%string (object []) "") one_task).1
    = {| InMemory.status := 200;
         InMemory.payload := InMemory.File (u16 "index.html") |}
  ∧ (InMemory.handle public_dir
       (request GET ["x"; ".."]%string (object []) "") one_task).1
    = {| InMemory.status := 301; InMemory.payload := InMemory.Moved |}
  ∧ InMemory.status
      (InMemory.handle [u16 "app.js"]
         (request GET ["about"]%string (object []) "") one_task).1 = 404.
Proof. vm_compute. repeat split; reflexivity. Qed.

(** Escapes: ASCII, a sequence of three bytes, a pair of surrogates, and
    what [decodeURIComponent] refuses. *)
Example escapes :
  decodeURIComponent (u16 "%41b%7a") = Some (u16 "Abz")
  ∧ decodeURIComponent (u16 "%E2%82%AC") = Some [0x20AC%N]
  ∧ decodeURIComponent (u16 "%F0%9F%98%80") = Some [0xD83D%N; 0xDE00%N]
  ∧ decodeURIComponent (u16 "%") = None
  ∧ decodeURIComponent (u16 "%zz") = None
  ∧ decodeURIComponent (u16 "%80") = None
  ∧ decodeURIComponent (u16 "%C0%80") = None
  ∧ decodeURIComponent (u16 "%ED%A0%80") = None
  ∧ decodeURIComponent (u16 "%F4%90%80%80") = None.
Proof. vm_compute. repeat split; reflexivity. Qed.

(** The first creation on a fresh server yields [one_task]. *)
Example first_creation :
  InMemory.handle public_dir post_milk InMemory.init
  = ({| InMemory.status := 201; InMemory.payload := InMemory.OneTask milk |},
     one_task).
Proof. vm_compute. reflexivity. Qed.

(** A title that is a number makes [title.trim] fail; nothing is stored. *)
Example numeric_title_throws :
  InMemory.post_tasks (u16 "") (object [("title", JNum 5)]%string)
    InMemory.init
  = ({| InMemory.status := 500;
        InMemory.payload := InMemory.Thrown "TypeError" |}, InMemory.init).
Proof. vm_compute. reflexivity. Qed.

(** Create, replace, delete, read on the Spring controller. *)
Example jpa_end_to_end :
  (Jpa.calls
     [Jpa.CallCreate (titled (u16 "Buy milk"));
      Jpa.CallUpdate 1
        {| Jpa.title_field := Some (u16 "Buy milk");
           Jpa.description_field := None;
           Jpa.status_field := Some Jpa.DONE;
           Jpa.dueDate_field := None |};
      Jpa.CallDelete 1;
      Jpa.CallGetById 1]
     Jpa.empty).1
  = [Jpa.Created
       {| Jpa.id := Some 1; Jpa.title := Some (u16 "Buy milk");
          Jpa.description := None; Jpa.status := Jpa.TODO;
          Jpa.dueDate := None |};
     Jpa.Ok
       {| Jpa.id := Some 1; Jpa.title := Some (u16 "Buy milk");
          Jpa.description := None; Jpa.status := Jpa.DONE;
          Jpa.dueDate := None |};
     Jpa.NoContent;
     Jpa.NotFound].
Proof. vm_compute. reflexivity. Qed.

End Examples.

(** * Paths without escapes *)

Section Paths.

Lemma plain_spec x :
  plain x = true →
  x ≠ [] ∧ ∀ c, c ∈ x → c ≠ 0%N ∧ c ≠ 0x25%N ∧ c ≠ 0x2E%N
                        ∧ c ≠ 0x2F%N ∧ c ≠ 0x5C%N.
Proof.
  unfold plain. intros [Hne Hall]%andb_true_iff. split.
  - apply negb_true_iff, bool_decide_eq_false_1 in Hne. exact Hne.
  - intros c Hc. rewrite forallb_forall in Hall.
    specialize (Hall c (proj1 (list_elem_of_In _ _) Hc)).
    apply negb_true_iff, bool_decide_eq_false_1 in Hall.
    rewrite !not_elem_of_cons in Hall. tauto.
Qed.

Lemma numeral_plain x : numeral x = true → plain x = true.
Proof.
  unfold numeral, plain. intros [Hne Hall]%andb_true_iff.
  apply andb_true_iff. split; [exact Hne|].
  rewrite forallb_forall in Hall |- *. intros c Hc.
  specialize (Hall c Hc). apply andb_true_iff in Hall as [H1 H2].
  apply N.leb_le in H1, H2.
  apply negb_true_iff, bool_decide_eq_false_2.
  rewrite !not_elem_of_cons. split_and!; try lia. apply not_elem_of_nil.
Qed.

Lemma decode_plain f x :
  0x25%N ∉ x → (length x ≤ f)%nat → decode f x = Some x.
Proof.
  revert f. induction x as [|c r IH]; intros f Hx Hf.
  - by destruct f.
  - destruct f as [|f]; simpl in Hf; [lia|].
    apply not_elem_of_cons in Hx as [Hc Hr]. simpl.
    rewrite bool_decide_eq_false_2 by congruence.
    rewrite IH by (done || lia). reflexivity.
Qed.

(** Text without [%] decodes to itself. *)
Lemma decodeURIComponent_plain x :
  0x25%N ∉ x → decodeURIComponent x = Some x.
Proof. intros H. apply decode_plain; [exact H|reflexivity]. Qed.

Lemma split_on_plain sep x : sep ∉ x → split_on sep x = [x].
Proof.
  induction x as [|c r IH]; [reflexivity|].
  intros [Hc Hr]%not_elem_of_cons. simpl.
  rewrite bool_decide_eq_false_2 by congruence.
  by rewrite (IH Hr).
Qed.

Lemma mapM_decode_plain p :
  Forall (λ x, plain x = true ∨ x = []) p →
  mapM decodeURIComponent p = Some p.
Proof.
  induction 1 as [|x p Hx _ IH]; [reflexivity|].
  simpl. rewrite decodeURIComponent_plain, IH; [reflexivity|].
  destruct Hx as [Hx| ->]; [|apply not_elem_of_nil].
  intros Hin. apply plain_spec in Hx as [_ Hx]. apply Hx in Hin. tauto.
Qed.

Lemma pieces_plain p :
  Forall (λ x, plain x = true ∨ x = []) p → p ≫= split_on 0x2F = p.
Proof.
  induction 1 as [|x p Hx _ IH]; [reflexivity|].
  rewrite bind_cons, IH, split_on_plain; [reflexivity|].
  destruct Hx as [Hx| ->]; [|apply not_elem_of_nil].
  intros Hin. apply plain_spec in Hx as [_ Hx]. apply Hx in Hin. tauto.
Qed.

Lemma no_nul_plain p :
  Forall (λ x, plain x = true ∨ x = []) p →
  bool_decide (Exists (λ x : jsstring, 0%N ∈ x) p) = false.
Proof.
  intros H. apply bool_decide_eq_false_2.
  intros (x & Hx & H0)%Exists_exists.
  rewrite Forall_forall in H. destruct (H x Hx) as [Hp| ->].
  - apply plain_spec in Hp as [_ Hp]. apply Hp in H0. tauto.
  - by apply not_elem_of_nil in H0.
Qed.

Lemma plain_or_empty p :
  Forall (λ x, plain x = true) p →
  Forall (λ x, plain x = true ∨ x = []) p.
Proof. intros H. eapply Forall_impl; [exact H|]. simpl. auto. Qed.


Lemma normalize_plain_app stack p q :
  Forall (λ x, plain x = true) p →
  normalize stack (p ++ q) = normalize (reverse p ++ stack) q.
Proof.
  intros H. revert stack.
  induction H as [|x p Hx _ IH]; intros stack; [reflexivity|].
  apply plain_spec in Hx as [Hne Hx]. simpl.
  rewrite (bool_decide_eq_false_2 (x = [])) by exact Hne.
  rewrite (bool_decide_eq_false_2 (x = dot)).
  2:{ intros ->. destruct (Hx 0x2E%N) as (_ & _ & H & _);
        [apply list_elem_of_here|done]. }
  rewrite (bool_decide_eq_false_2 (x = dotdot)).
  2:{ intros ->. destruct (Hx 0x2E%N) as (_ & _ & H & _);
        [apply list_elem_of_here|done]. }
  simpl. rewrite IH, reverse_cons, <- app_assoc. reflexivity.
Qed.

Lemma normalize_plain p :
  Forall (λ x, plain x = true) p → normalize [] p = p.
Proof.
  intros H. rewrite <- (app_nil_r p) at 1.
  rewrite (normalize_plain_app [] p [] H). simpl.
  by rewrite app_nil_r, reverse_involutive.
Qed.


Lemma climbs_plain p :
  Forall (λ x, plain x = true) p → existsb climbs p = false.
Proof.
  induction 1 as [|x p Hx _ IH]; [reflexivity|].
  simpl. rewrite IH, orb_false_r. unfold climbs.
  apply plain_spec in Hx as [Hne Hx].
  rewrite split_on_plain.
  - apply bool_decide_eq_false_2. intros E%list_elem_of_singleton.
    subst x.
    destruct (Hx 0x2E%N) as (_ & _ & H & _); [apply list_elem_of_here|done].
  - intros Hin. apply Hx in Hin. tauto.
Qed.

(** [express.static] on a path of plain segments: a file of the directory
    when there is one segment, nothing below it. *)
Lemma static_plain public p :
  Forall (λ x, plain x = true) p →
  InMemory.static public p
  = match p with
    | [] => if bool_decide (u16 "index.html" ∈ public)
            then Some {| InMemory.status := 200;
                         InMemory.payload := InMemory.File (u16 "index.html") |}
            else None
    | [name] => if bool_decide (name ∈ public)
                then Some {| InMemory.status := 200;
                             InMemory.payload := InMemory.File name |}
                else None
    | _ => None
    end.
Proof.
  intros H. unfold InMemory.static.
  rewrite (mapM_decode_plain p (plain_or_empty p H)). cbv zeta.
  rewrite (pieces_plain p (plain_or_empty p H)).
  rewrite (no_nul_plain p (plain_or_empty p H)).
  rewrite (normalize_plain p H), (climbs_plain p H).
  destruct p as [|name [|]]; [reflexivity| |reflexivity].
  apply Forall_inv, plain_spec in H as [Hne Hx].
  unfold InMemory.trailing_slash. simpl.
  rewrite (bool_decide_eq_false_2 (name = [])) by exact Hne.
  rewrite bool_decide_eq_false_2; [reflexivity|].
  destruct name as [|c r]; [done|]. simpl. intros [= ->].
  destruct (Hx 0x2E%N) as (_ & _ & H & _); [apply list_elem_of_here|done].
Qed.


(** A segment that matches a literal of letters is plain. *)
Lemma same_segment_plain lit a :
  plain (u16 lit) = true →
  Forall (λ c, (0x61 ≤ c ≤ 0x7A)%N) (u16 lit) →
  same_segment lit a = true → plain a = true.
Proof.
  intros Hlit Hletters Hsame.
  apply bool_decide_eq_true_1 in Hsame.
  apply andb_true_iff. split.
  - apply negb_true_iff, bool_decide_eq_false_2. intros ->.
    apply plain_spec in Hlit as [Hne _].
    destruct (u16 lit); [done|discriminate Hsame].
  - apply forallb_forall. intros c Hc%list_elem_of_In.
    apply negb_true_iff, bool_decide_eq_false_2.
    assert (Hf : fold_case c ∈ fold_case <$> u16 lit).
    { rewrite <- Hsame. apply list_elem_of_fmap. eauto. }
    apply list_elem_of_fmap in Hf as (d & Hd & Hin).
    rewrite Forall_forall in Hletters. specialize (Hletters d Hin).
    unfold fold_case in Hd.
    rewrite !not_elem_of_cons. 
    repeat case_match;
      repeat match goal with
             | E : (_ && _)%bool = true |- _ => apply andb_true_iff in E as [? ?]
             | E : (_ && _)%bool = false |- _ => apply andb_false_iff in E
             | E : (_ <=? _)%N = true |- _ => apply N.leb_le in E
             end;
      split_and!; try lia; apply not_elem_of_nil.
Qed.

End Paths.

(** * Facts about the in-memory server *)

Section InMemoryFacts.
Import InMemory.

(** What [express.static] sends: a file of the directory, or a redirect. *)
Lemma static_Some public p resp :
  static public p = Some resp →
  resp = {| status := 301; payload := Moved |}
  ∨ ∃ f, f ∈ public ∧ resp = {| status := 200; payload := File f |}.
Proof.
  unfold static. intros H.
  repeat (case_match; try discriminate);
    repeat match goal with
           | E : bool_decide _ = true |- _ => apply bool_decide_eq_true_1 in E
           end;
    injection H as <-; eauto.
Qed.

Lemma get_any_unchanged public :
  ∃ resp, (∀ s, get_any public s = (resp, s))
          ∧ (status resp = 200 ∨ status resp = 404).
Proof.
  unfold get_any. case_match; eexists; (split; [reflexivity|]); simpl; auto.
Qed.

Local Ltac in_list :=
  repeat first [apply list_elem_of_here | apply list_elem_of_further].

Lemma last_route_shape public m p :
  ∃ resp,
    (∀ s, match mapM decodeURIComponent p with
          | Some _ => if reads m then get_any public s
                      else ({| status := 404; payload := Empty |}, s)
          | None => ({| status := 400; payload := Thrown "URIError" |}, s)
          end = (resp, s))
    ∧ status resp ∈ [200; 204; 301; 400; 404].
Proof.
  destruct (get_any_unchanged public) as (ga & Ega & Hga).
  destruct (mapM decodeURIComponent p); [destruct (reads m)|].
  - exists ga. split; [exact Ega|]. destruct Hga as [-> | ->]; in_list.
  - eexists. split; [reflexivity|]. simpl. in_list.
  - eexists. split; [reflexivity|]. simpl. in_list.
Qed.

(** The routes a request can reach, in the order they are tried; which one
    it reaches does not depend on the store. *)
Lemma handle_shape public r :
  (method r = POST ∧ tasks_route (path r) = true
   ∧ ∀ s, handle public r s = post_tasks (now r) (body r) s)
  ∨ (∃ i p, method r = PUT ∧ id_route (path r) = Some i
            ∧ decodeURIComponent i = Some p
            ∧ ∀ s, handle public r s = put_task p (body r) s)
  ∨ (∃ i p, method r = DELETE ∧ id_route (path r) = Some i
            ∧ decodeURIComponent i = Some p
            ∧ ∀ s, handle public r s = delete_task p s)
  ∨ (reads (method r) = true ∧ tasks_route (path r) = true
     ∧ ∀ s, handle public r s = get_tasks s)
  ∨ (∃ resp, (∀ s, handle public r s = (resp, s))
             ∧ status resp ∈ [200; 204; 301; 400; 404]).
Proof.
  unfold handle. cbv zeta.
  case_bool_decide as Hopt.
  { do 4 right. eexists. split; [reflexivity|]. simpl. in_list. }
  destruct (if reads (method r) then static public (path r) else None)
    as [resp|] eqn:Hst.
  { do 4 right. exists resp. split; [reflexivity|].
    destruct (reads (method r)); [|discriminate].
    apply static_Some in Hst as [-> | (f & _ & ->)]; simpl; in_list. }
  destruct (tasks_route (path r)) eqn:Ht.
  { destruct (method r) eqn:Hm;
      first [ left; by auto
            | do 3 right; left; by auto
            | do 4 right; apply last_route_shape ]. }
  destruct (id_route (path r)) as [i|] eqn:Hi;
    [|do 4 right; apply last_route_shape].
  destruct (decodeURIComponent i) as [p|] eqn:Hp.
  - destruct (method r) eqn:Hm;
      first [ right; left; exists i, p; by auto
            | right; right; left; exists i, p; by auto
            | do 4 right; apply last_route_shape ].
  - do 4 right. eexists. split; [reflexivity|]. simpl. in_list.
Qed.

Lemma handle_routes public r s :
  (method r = POST ∧ tasks_route (path r) = true
   ∧ handle public r s = post_tasks (now r) (body r) s)
  ∨ (∃ i p, method r = PUT ∧ id_route (path r) = Some i
            ∧ decodeURIComponent i = Some p
            ∧ handle public r s = put_task p (body r) s)
  ∨ (∃ i p, method r = DELETE ∧ id_route (path r) = Some i
            ∧ decodeURIComponent i = Some p
            ∧ handle public r s = delete_task p s)
  ∨ (∃ resp, handle public r s = (resp, s)
             ∧ status resp ∈ [200; 204; 301; 400; 404]).
Proof.
  destruct (handle_shape public r)
    as [(Hm & Hp & E)|[(i & p & Hm & Hi & Hp & E)
       |[(i & p & Hm & Hi & Hp & E)|[(_ & _ & E)|(resp & E & H)]]]];
    eauto 10.
  do 3 right. eexists. split; [by rewrite E|]. simpl. in_list.
Qed.

Lemma handle_cases public r s :
  handle public r s = post_tasks (now r) (body r) s
  ∨ (∃ i, handle public r s = put_task i (body r) s)
  ∨ (∃ i, handle public r s = delete_task i s)
  ∨ (∃ resp, handle public r s = (resp, s) ∧ status resp ≠ 201).
Proof.
  destruct (handle_routes public r s)
    as [(_ & _ & E)|[(i & p & _ & _ & _ & E)|[(i & p & _ & _ & _ & E)
       |(resp & E & H)]]]; eauto.
  do 3 right. exists resp. split; [exact E|]. intros E1. rewrite E1 in H.
  repeat (apply elem_of_cons in H as [H|H]; [discriminate|]).
  by apply elem_of_nil in H.
Qed.

Lemma api_plain a : same_segment "api" a = true → plain a = true.
Proof.
  apply same_segment_plain; [reflexivity|].
  repeat constructor; vm_compute; congruence.
Qed.

Lemma tasks_plain t : same_segment "tasks" t = true → plain t = true.
Proof.
  apply same_segment_plain; [reflexivity|].
  repeat constructor; vm_compute; congruence.
Qed.






(** A member path /api/tasks/x whose last piece is plain text. *)
Lemma handle_id_path public m a t x b c s :
  same_segment "api" a = true → same_segment "tasks" t = true →
  plain x = true →
  handle public {| method := m; path := [a; t; x]; body := b; now := c |} s
  = match m with
    | OPTIONS => ({| status := 204; payload := Empty |}, s)
    | PUT => put_task x b s
    | DELETE => delete_task x s
    | GET | HEAD => get_any public s
    | _ => ({| status := 404; payload := Empty |}, s)
    end.
Proof.
  intros Ha Ht Hx.
  assert (Hp : Forall (λ y, plain y = true) [a; t; x]).
  { repeat constructor; auto using api_plain, tasks_plain. }
  unfold handle. simpl path. simpl method. simpl body.
  rewrite (static_plain public _ Hp),
    (mapM_decode_plain _ (plain_or_empty _ Hp)).
  apply plain_spec in Hx as [Hne Hx].
  replace (tasks_route [a; t; x]) with false
    by (simpl; by destruct x).
  replace (id_route [a; t; x]) with (Some x).
  2:{ simpl. rewrite Ha, Ht, bool_decide_eq_false_2 by exact Hne.
      reflexivity. }
  rewrite decodeURIComponent_plain
    by (intros Hin; apply Hx in Hin; tauto).
  destruct m; reflexivity.
Qed.

(** A property kept by the three mutating handlers is kept by the server. *)
Lemma handle_invariant (I : Store → Prop) :
  (∀ c b s, I s → I (post_tasks c b s).2) →
  (∀ i b s, I s → I (put_task i b s).2) →
  (∀ i s, I s → I (delete_task i s).2) →
  ∀ public r s, I s → I (handle public r s).2.
Proof.
  intros Hpost Hput Hdel public r s Hs.
  destruct (handle_cases public r s) as [E|[[i E]|[[i E]|(resp & E & _)]]];
    rewrite E; auto.
Qed.

Lemma serve_cons public r rs s :
  serve public (r :: rs) s =
    ((handle public r s).1 :: (serve public rs (handle public r s).2).1,
     (serve public rs (handle public r s).2).2).
Proof.
  simpl. destruct (handle public r s) as [resp s1]. simpl.
  destruct (serve public rs s1) as [resps s2]. reflexivity.
Qed.

Lemma serve_invariant (I : Store → Prop) public :
  (∀ r s, I s → I (handle public r s).2) →
  ∀ rs s, I s → I (serve public rs s).2.
Proof.
  intros Hstep rs. induction rs as [|r rs IH]; intros s Hs; [exact Hs|].
  rewrite serve_cons. simpl. apply IH, Hstep, Hs.
Qed.

Lemma find_Some n l i t :
  find n l = Some (i, t) → l !! i = Some t ∧ n = Some (id t).
Proof.
  destruct n as [k|]; simpl; [|discriminate].
  intros (Hl & Hk & _)%list_find_Some. split; [exact Hl|congruence].
Qed.

Lemma find_None n l :
  find n l = None ↔ ∀ t, t ∈ l → n ≠ Some (id t).
Proof.
  destruct n as [k|]; simpl.
  - rewrite list_find_None, Forall_forall. split.
    + intros H t Ht E. apply (H t Ht). congruence.
    + intros H t Ht E. apply (H t Ht). congruence.
  - split; [intros _ t _; discriminate|reflexivity].
Qed.

(** An update keeps the ids and the creation times of the array, position by
    position, and the counter. *)
Lemma put_task_ids p b s :
  id <$> tasks (put_task p b s).2 = id <$> tasks s
  ∧ createdAt <$> tasks (put_task p b s).2 = createdAt <$> tasks s
  ∧ nextId (put_task p b s).2 = nextId s.
Proof.
  unfold put_task.
  destruct (find (parseInt p) (tasks s)) as [[i t]|] eqn:E; [|done].
  apply find_Some in E as [Hi _]. simpl.
  rewrite !list_fmap_insert.
  split_and!; [| |done].
  - apply list_insert_id. rewrite list_lookup_fmap, Hi.
    repeat case_match; reflexivity.
  - apply list_insert_id. rewrite list_lookup_fmap, Hi.
    repeat case_match; reflexivity.
Qed.

Lemma ids_fresh_post c b s : ids_fresh s → ids_fresh (post_tasks c b s).2.
Proof.
  intros [Hlt Hnd]. unfold post_tasks.
  repeat case_match; try (split; assumption).
  split; simpl.
  - apply Forall_app. split.
    + eapply Forall_impl; [exact Hlt|]. simpl. intros; lia.
    + apply Forall_singleton. simpl. lia.
  - rewrite fmap_app. simpl. apply NoDup_app. split_and!; [done| |].
    + intros x Hx ->%list_elem_of_singleton.
      apply list_elem_of_fmap in Hx as (t & Ht & Hin).
      rewrite Forall_forall in Hlt. specialize (Hlt t Hin). lia.
    + apply NoDup_singleton.
Qed.

Lemma ids_fresh_put p b s : ids_fresh s → ids_fresh (put_task p b s).2.
Proof.
  intros [Hlt Hnd].
  destruct (put_task_ids p b s) as (Hid & _ & Hnext).
  split.
  - rewrite Hnext. apply Forall_fmap with (f := id) (P := λ i, i < nextId s).
    rewrite Hid. apply Forall_fmap. exact Hlt.
  - rewrite Hid. exact Hnd.
Qed.

Lemma ids_fresh_delete p s : ids_fresh s → ids_fresh (delete_task p s).2.
Proof.
  intros [Hlt Hnd]. unfold delete_task.
  destruct (find (parseInt p) (tasks s)) as [[i t]|]; [|done].
  split; simpl.
  - apply Forall_delete. exact Hlt.
  - rewrite list_fmap_delete. apply (sublist_NoDup _ (id <$> tasks s));
      [exact Hnd|apply sublist_delete].
Qed.

Lemma ids_fresh_handle public r s :
  ids_fresh s → ids_fresh (handle public r s).2.
Proof.
  apply handle_invariant;
    auto using ids_fresh_post, ids_fresh_put, ids_fresh_delete.
Qed.

Lemma reachable_ids_fresh s : reachable s → ids_fresh s.
Proof.
  intros (public & rs & ->). apply serve_invariant.
  - apply ids_fresh_handle.
  - split; [apply Forall_nil_2|apply NoDup_nil_2].
Qed.

(** What a successful creation returns and stores. *)
Lemma post_tasks_created c b s t :
  payload (post_tasks c b s).1 = OneTask t →
  ∃ x, prop "title" b = Some (JStr x)
       ∧ trim x ≠ []
       ∧ t = {| id := nextId s; title := JStr (trim x);
                completed := JBool false; createdAt := c |}
       ∧ post_tasks c b s =
           ({| status := 201; payload := OneTask t |},
            {| tasks := tasks s ++ [t]; nextId := nextId s + 1 |}).
Proof.
  unfold post_tasks. repeat case_match; simpl; try discriminate.
  intros [= <-]. eexists. split_and!; try reflexivity.
  match goal with H : _ || _ = false |- _ =>
    apply orb_false_iff in H as [_ H]; by apply bool_decide_eq_false in H end.
Qed.

End InMemoryFacts.

(** * Trimming *)

Section Trimming.

Lemma trimStart_head s :
  trimStart s = [] ∨ ∃ c r, trimStart s = c :: r ∧ is_whitespace c = false.
Proof.
  induction s as [|c r IH]; simpl; [by left|].
  destruct (is_whitespace c) eqn:E; [exact IH|]. right. eauto.
Qed.

Lemma trimStart_suffix s : ∃ k, s = k ++ trimStart s.
Proof.
  induction s as [|c r [k IH]]; simpl; [by exists []|].
  destruct (is_whitespace c).
  - exists (c :: k). simpl. by f_equal.
  - by exists [].
Qed.

Lemma trimStart_fixed c r : is_whitespace c = false → trimStart (c :: r) = c :: r.
Proof. intros E. simpl. by rewrite E. Qed.

Lemma trimEnd_prefix s : ∃ k, s = trimEnd s ++ k.
Proof.
  unfold trimEnd. destruct (trimStart_suffix (reverse s)) as [k Hk].
  exists (reverse k).
  rewrite <- reverse_app, <- Hk. by rewrite reverse_involutive.
Qed.

(** What [trim] returns starts and ends with a character that is kept. *)
Lemma trim_idempotent s : trim (trim s) = trim s.
Proof.
  unfold trim. set (a := trimStart s). set (u := trimEnd a).
  assert (Hu : trimStart u = u).
  { destruct (trimEnd_prefix a) as [k Hk]. fold u in Hk.
    destruct u as [|c r]; [done|].
    destruct (trimStart_head s) as [E|(c' & r' & E & Hc)]; fold a in E.
    - rewrite E in Hk. discriminate.
    - rewrite E in Hk. simpl in Hk. injection Hk as -> _.
      by apply trimStart_fixed. }
  rewrite Hu. unfold trimEnd. subst u. unfold trimEnd.
  rewrite reverse_involutive.
  destruct (trimStart_head (reverse a)) as [E|(c & r & E & Hc)].
  - by rewrite E.
  - rewrite E. by rewrite trimStart_fixed.
Qed.

Lemma trim_trimmed s : trim s ≠ [] → trimmed_title (trim s).
Proof. intros H. split; [exact H|apply trim_idempotent]. Qed.

End Trimming.

(** * The completed flag *)

Section Completed.
Import InMemory.

Lemma completed_boolean_post c b s :
  completed_boolean s → completed_boolean (post_tasks c b s).2.
Proof.
  intros Hs. unfold post_tasks. repeat case_match; try exact Hs.
  apply Forall_app. split; [exact Hs|]. by apply Forall_singleton.
Qed.

Lemma completed_boolean_put p b s :
  completed_boolean s → completed_boolean (put_task p b s).2.
Proof.
  intros Hs. unfold put_task.
  destruct (find (parseInt p) (tasks s)) as [[i t]|] eqn:E; [|exact Hs].
  apply find_Some in E as [Hi _]. simpl. apply Forall_insert; [exact Hs|].
  unfold completed_boolean in Hs. rewrite Forall_lookup in Hs.
  specialize (Hs i t Hi). repeat case_match; simpl; done.
Qed.

Lemma completed_boolean_delete p s :
  completed_boolean s → completed_boolean (delete_task p s).2.
Proof.
  intros Hs. unfold delete_task. repeat case_match; try exact Hs.
  simpl. by apply Forall_delete.
Qed.

(** C9: in the in-memory variant the completed field of every stored task is a
    boolean after every sequence of requests; a creation stores [false], and an
    update that supplies completed stores the truthiness of the supplied
    value, whatever its JSON type. *)
Theorem completed_is_always_boolean :
  (∀ public rs, completed_boolean (serve public rs init).2)
  ∧ (∀ c b s t,
       payload (post_tasks c b s).1 = OneTask t → completed t = JBool false)
  ∧ (∀ p b s i t v,
       find (parseInt p) (tasks s) = Some (i, t) →
       prop "completed" b = Some v →
       ∃ t', payload (put_task p b s).1 = OneTask t'
             ∧ tasks (put_task p b s).2 !! i = Some t'
             ∧ completed t' = JBool (truthy v)).
Proof.
  split_and!.
  - intros public rs. apply serve_invariant; [|apply Forall_nil_2].
    apply handle_invariant;
      auto using completed_boolean_post, completed_boolean_put,
        completed_boolean_delete.
  - intros c b s t H.
    by destruct (post_tasks_created c b s t H) as (x & _ & _ & -> & _).
  - intros p b s i t v Hfind Hv. unfold put_task. rewrite Hfind, Hv.
    apply find_Some in Hfind as [Hi _]. simpl.
    eexists. split_and!; [reflexivity| |reflexivity].
    apply list_lookup_insert_eq. by eapply lookup_lt_Some.
Qed.

(** The first creation, and an update of its task that sends a string where a
    boolean is expected. *)
Lemma completed_is_always_boolean_witness :
  completed milk = JBool false
  ∧ ∃ t', payload (put_task (u16 "1")
                     (object [("completed", JStr (u16 "yes"))]%string)
                     one_task).1
          = OneTask t'
          ∧ tasks (put_task (u16 "1")
                     (object [("completed", JStr (u16 "yes"))]%string)
                     one_task).2 !! 0%nat
            = Some t'
          ∧ completed t' = JBool (truthy (JStr (u16 "yes"))).
Proof.
  split.
  - apply (proj1 (proj2 completed_is_always_boolean)
             (u16 "2024-05-01T09:00:00.000Z")
             (object [("title", JStr (u16 "Buy milk"))]%string) init milk).
    vm_compute. reflexivity.
  - apply (proj2 (proj2 completed_is_always_boolean)) with (t := milk).
    + vm_compute. reflexivity.
    + vm_compute. reflexivity.
Defined.

(** C10: what a creation stores is determined by the title member of the
    body, the counter and the clock; two bodies with the same title create the
    same record from the same store, and the record takes nothing else from
    the body. *)
Theorem create_reads_title_only :
  (∀ c b1 b2 s,
     prop "title" b1 = prop "title" b2 →
     post_tasks c b1 s = post_tasks c b2 s)
  ∧ (∀ c b s t,
       payload (post_tasks c b s).1 = OneTask t →
       ∃ x, prop "title" b = Some (JStr x)
            ∧ t = {| id := nextId s; title := JStr (trim x);
                     completed := JBool false; createdAt := c |}
            ∧ tasks (post_tasks c b s).2 = tasks s ++ [t])
  ∧ (∀ public r1 r2 s,
       method r1 = POST → method r2 = POST →
       path r1 = path r2 → now r1 = now r2 →
       prop "title" (body r1) = prop "title" (body r2) →
       handle public r1 s = handle public r2 s).
Proof.
  assert (Hpost : ∀ c b1 b2 s,
    prop "title" b1 = prop "title" b2 →
    post_tasks c b1 s = post_tasks c b2 s).
  { intros c b1 b2 s E. unfold post_tasks. by rewrite E. }
  split_and!; [exact Hpost| |].
  2: { intros public [m1 p1 b1 c1] [m2 p2 b2 c2] s; simpl.
       intros -> -> -> -> E. unfold handle; simpl.
       repeat case_match; try reflexivity. by apply Hpost. }
  - intros c b s t H.
    destruct (post_tasks_created c b s t H) as (x & ? & _ & ? & E).
    exists x. split_and!; try done. by rewrite E.
Qed.

(** Two bodies that agree on the title only: the second one tries to choose
    its id, its flag and its creation time. *)
Lemma create_reads_title_only_witness :
  post_tasks (u16 "T") (object [("title", JStr (u16 "x"))]%string) init
  = post_tasks (u16 "T")
      (object [("title", JStr (u16 "x")); ("id", JNum 7);
               ("completed", JBool true);
               ("createdAt", JStr (u16 "1970"))]%string) init
  ∧ (∃ x, prop "title" (body post_milk) = Some (JStr x)
          ∧ milk = {| id := nextId init; title := JStr (trim x);
                      completed := JBool false; createdAt := now post_milk |}
          ∧ tasks (post_tasks (now post_milk) (body post_milk) init).2
            = tasks init ++ [milk])
  ∧ handle public_dir post_milk init
    = handle public_dir
        (request POST ["api"; "tasks"]%string
           (object [("title", JStr (u16 "Buy milk")); ("id", JNum 7)]%string)
           "2024-05-01T09:00:00.000Z") init.
Proof.
  split_and!.
  - apply (proj1 create_reads_title_only). vm_compute. reflexivity.
  - apply (proj1 (proj2 create_reads_title_only)). vm_compute. reflexivity.
  - apply (proj2 (proj2 create_reads_title_only)); vm_compute; reflexivity.
Defined.

End Completed.

(** * Updates *)

Section Updates.

(** The task an update leaves behind: title and completed are taken from the
    body when it has them. *)
Lemma put_task_found p b s i t :
  InMemory.find (parseInt p) (InMemory.tasks s) = Some (i, t) →
  ∃ t',
    InMemory.put_task p b s =
      ({| InMemory.status := 200; InMemory.payload := InMemory.OneTask t' |},
       {| InMemory.tasks := <[i := t']> (InMemory.tasks s);
          InMemory.nextId := InMemory.nextId s |})
    ∧ InMemory.id t' = InMemory.id t
    ∧ InMemory.createdAt t' = InMemory.createdAt t
    ∧ InMemory.title t' = default (InMemory.title t) (prop "title" b)
    ∧ InMemory.completed t' =
        default (InMemory.completed t)
          ((λ v, JBool (truthy v)) <$> prop "completed" b).
Proof.
  intros E. unfold InMemory.put_task. rewrite E.
  eexists. split; [reflexivity|].
  destruct (prop "title" b), (prop "completed" b); simpl; done.
Qed.

Lemma jpa_findById_id i r t : Jpa.findById i r = Some t → Jpa.id t = Some i.
Proof.
  unfold Jpa.findById. destruct (Jpa.rows r !! i); simpl; [|discriminate].
  by intros [= <-].
Qed.

(** What [update] does to the table: the row under the id takes the columns
    of the body, nothing else moves. *)
Lemma jpa_update_found i b r t :
  Jpa.valid (Jpa.bind b) = true →
  Jpa.findById i r = Some t →
  Jpa.update i b r =
    (Jpa.Ok (Jpa.entity i (Jpa.columns (Jpa.bind b))),
     {| Jpa.rows := <[i := Jpa.columns (Jpa.bind b)]> (Jpa.rows r);
        Jpa.next := Jpa.next r |}).
Proof.
  intros Hv Hf. unfold Jpa.update. rewrite Hv, Hf.
  pose proof (jpa_findById_id _ _ _ Hf) as Hid.
  unfold Jpa.save. simpl. rewrite Hid.
  apply fmap_Some in Hf as (row & Hrow & _). rewrite Hrow.
  reflexivity.
Qed.

Lemma jpa_update_rows i b r :
  Jpa.rows (Jpa.update i b r).2 = Jpa.rows r
  ∨ (is_Some (Jpa.rows r !! i)
     ∧ Jpa.rows (Jpa.update i b r).2
       = <[i := Jpa.columns (Jpa.bind b)]> (Jpa.rows r)).
Proof.
  destruct (Jpa.valid (Jpa.bind b)) eqn:Hv.
  - destruct (Jpa.findById i r) as [t|] eqn:Hf.
    + right. rewrite (jpa_update_found _ _ _ _ Hv Hf). split; [|done].
      apply fmap_Some in Hf as (row & Hrow & _). eauto.
    + left. unfold Jpa.update. by rewrite Hv, Hf.
  - left. unfold Jpa.update. by rewrite Hv.
Qed.

(** C6: an update never changes the id or the creation time of a task.  In
    the in-memory variant the ids and creation times of the array are the same
    before and after, position by position, and the task returned carries
    those of the task found; in the JPA variant the task found under every key
    carries the same id before and after, and the task returned carries the id
    of the path. *)
Theorem update_keeps_id_and_createdAt :
  (∀ p b s,
     InMemory.id <$> InMemory.tasks (InMemory.put_task p b s).2
       = InMemory.id <$> InMemory.tasks s
     ∧ InMemory.createdAt <$> InMemory.tasks (InMemory.put_task p b s).2
       = InMemory.createdAt <$> InMemory.tasks s)
  ∧ (∀ p b s, match InMemory.find (parseInt p) (InMemory.tasks s),
                    InMemory.payload (InMemory.put_task p b s).1 with
              | Some (_, t), InMemory.OneTask t' =>
                  InMemory.id t' = InMemory.id t
                  ∧ InMemory.createdAt t' = InMemory.createdAt t
              | Some _, _ => False
              | None, _ => True
              end)
  ∧ (∀ i b r j,
       Jpa.id <$> Jpa.findById j (Jpa.update i b r).2
         = Jpa.id <$> Jpa.findById j r)
  ∧ (∀ i b r, match (Jpa.update i b r).1 with
              | Jpa.Ok t' => Jpa.id t' = Some i
              | _ => True
              end).
Proof.
  split_and!.
  - intros p b s. destruct (put_task_ids p b s) as (? & ? & _). done.
  - intros p b s.
    destruct (InMemory.find (parseInt p) (InMemory.tasks s))
      as [[i t]|] eqn:E; [|done].
    destruct (put_task_found p b s i t E) as (t' & -> & ? & ? & _). done.
  - intros i b r j. unfold Jpa.findById.
    destruct (jpa_update_rows i b r) as [->|[[row Hrow] ->]]; [done|].
    destruct (decide (i = j)) as [->|Hne].
    + by rewrite lookup_insert_eq, Hrow.
    + by rewrite lookup_insert_ne.
  - intros i b r.
    destruct (Jpa.valid (Jpa.bind b)) eqn:Hv.
    + destruct (Jpa.findById i r) as [t|] eqn:Hf.
      * by rewrite (jpa_update_found _ _ _ _ Hv Hf).
      * unfold Jpa.update. by rewrite Hv, Hf.
    + unfold Jpa.update. by rewrite Hv.
Qed.

End Updates.

(** * Partial updates *)

Section PartialUpdate.
Import InMemory.

(** C5, as stated, fails: the in-memory store keeps neither a status nor a
    description, and an update that sends a status changes nothing. *)
Lemma status_update_changes_nothing :
  put_task (u16 "1") (object [("status", JStr (u16 "DONE"))]%string) one_task
  = ({| status := 200; payload := OneTask milk |}, one_task).
Proof. vm_compute. reflexivity. Qed.

(** C5, amended: an update of an existing task changes the title and the
    completed flag, each only when the body has it (a supplied completed is
    stored as its truthiness); the id, the creation time, whichever of the two
    is omitted, and every other task keep their values, and no other member
    of the body is read. *)
Theorem partial_update_frame :
  (∀ p b s i t,
     find (parseInt p) (tasks s) = Some (i, t) →
     ∃ t',
       put_task p b s =
         ({| status := 200; payload := OneTask t' |},
          {| tasks := <[i := t']> (tasks s); nextId := nextId s |})
       ∧ id t' = id t
       ∧ createdAt t' = createdAt t
       ∧ title t' = default (title t) (prop "title" b)
       ∧ completed t' =
           default (completed t) ((λ v, JBool (truthy v)) <$> prop "completed" b)
       ∧ ∀ j, j ≠ i → tasks (put_task p b s).2 !! j = tasks s !! j)
  ∧ (∀ p b1 b2 s,
       prop "title" b1 = prop "title" b2 →
       prop "completed" b1 = prop "completed" b2 →
       put_task p b1 s = put_task p b2 s).
Proof.
  split.
  - intros p b s i t E.
    destruct (put_task_found p b s i t E) as (t' & Hput & ? & ? & ? & ?).
    exists t'. split_and!; try done.
    intros j Hj. rewrite Hput. simpl. by apply list_lookup_insert_ne.
  - intros p b1 b2 s E1 E2. unfold put_task. by rewrite E1, E2.
Qed.

(** An update that only sets the flag of the one stored task, and two bodies
    that differ in a member the handler does not read. *)
Lemma partial_update_frame_witness :
  (∃ t',
     put_task (u16 "1") (object [("completed", JBool true)]%string) one_task =
       ({| status := 200; payload := OneTask t' |},
        {| tasks := <[0%nat := t']> (tasks one_task);
           nextId := nextId one_task |})
     ∧ id t' = id milk
     ∧ createdAt t' = createdAt milk
     ∧ title t' =
         default (title milk)
           (prop "title" (object [("completed", JBool true)]%string))
     ∧ completed t' =
         default (completed milk)
           ((λ v, JBool (truthy v))
              <$> prop "completed" (object [("completed", JBool true)]%string))
     ∧ ∀ j, j ≠ 0%nat →
         tasks (put_task (u16 "1")
                  (object [("completed", JBool true)]%string) one_task).2 !! j
         = tasks one_task !! j)
  ∧ put_task (u16 "1") (object [("completed", JBool true)]%string) one_task
    = put_task (u16 "1")
        (object [("completed", JBool true);
                 ("status", JStr (u16 "DONE"))]%string) one_task.
Proof.
  split.
  - apply (proj1 partial_update_frame). vm_compute. reflexivity.
  - apply (proj2 partial_update_frame); vm_compute; reflexivity.
Defined.

End PartialUpdate.

(** * Creation *)

Section Creation.

Lemma jpa_create_valid b r :
  Jpa.valid (Jpa.bind b) = true →
  Jpa.create b r =
    (Jpa.Created (Jpa.entity (Jpa.next r) (Jpa.columns (Jpa.bind b))),
     {| Jpa.rows := <[Jpa.next r := Jpa.columns (Jpa.bind b)]> (Jpa.rows r);
        Jpa.next := Jpa.next r + 1 |}).
Proof. intros Hv. unfold Jpa.create. rewrite Hv. reflexivity. Qed.

Lemma jpa_create_invalid b r :
  Jpa.valid (Jpa.bind b) = false → Jpa.create b r = (Jpa.BadRequest, r).
Proof. intros Hv. unfold Jpa.create. by rewrite Hv. Qed.

(** C8: a creation whose body has no status yields and stores a task with
    status [TODO]; in the in-memory variant every creation yields and stores a
    task whose completed flag is [false]. *)
Theorem create_default_status :
  (∀ b r t,
     Jpa.status_field b = None →
     (Jpa.create b r).1 = Jpa.Created t →
     Jpa.status t = Jpa.TODO
     ∧ ∃ i, Jpa.id t = Some i ∧ Jpa.findById i (Jpa.create b r).2 = Some t)
  ∧ (∀ c b s t,
       InMemory.payload (InMemory.post_tasks c b s).1 = InMemory.OneTask t →
       InMemory.completed t = JBool false
       ∧ last (InMemory.tasks (InMemory.post_tasks c b s).2) = Some t).
Proof.
  split.
  - intros b r t Hs.
    destruct (Jpa.valid (Jpa.bind b)) eqn:Hv.
    + rewrite (jpa_create_valid _ _ Hv). simpl. intros [= <-]. split.
      * simpl. by rewrite Hs.
      * exists (Jpa.next r). split; [reflexivity|].
        unfold Jpa.findById. simpl. by rewrite lookup_insert_eq.
    + rewrite (jpa_create_invalid _ _ Hv). discriminate.
  - intros c b s t H.
    destruct (post_tasks_created c b s t H) as (x & _ & _ & -> & ->).
    split; [reflexivity|apply last_snoc].
Qed.

(** [create({title: "x"})] on the empty table, and the first creation of the
    in-memory server. *)
Lemma create_default_status_witness :
  (Jpa.status (Jpa.entity 1 (Jpa.columns (Jpa.bind (titled (u16 "x")))))
     = Jpa.TODO
   ∧ ∃ i,
       Jpa.id (Jpa.entity 1 (Jpa.columns (Jpa.bind (titled (u16 "x")))))
         = Some i
       ∧ Jpa.findById i (Jpa.create (titled (u16 "x")) Jpa.empty).2
         = Some (Jpa.entity 1 (Jpa.columns (Jpa.bind (titled (u16 "x"))))))
  ∧ (InMemory.completed milk = JBool false
     ∧ last (InMemory.tasks
               (InMemory.post_tasks (InMemory.now post_milk)
                  (InMemory.body post_milk) InMemory.init).2)
       = Some milk).
Proof.
  split.
  - apply (proj1 create_default_status (titled (u16 "x")) Jpa.empty).
    + reflexivity.
    + vm_compute. reflexivity.
  - apply (proj2 create_default_status). vm_compute. reflexivity.
Defined.

End Creation.

(** * Reading a task back *)

Section ReadBack.

Lemma find_appended (s : InMemory.Store) t :
  Forall (λ t', InMemory.id t' < InMemory.id t) (InMemory.tasks s) →
  InMemory.find (Some (InMemory.id t)) (InMemory.tasks s ++ [t])
    = Some (length (InMemory.tasks s), t).
Proof.
  intros Hlt. simpl. rewrite list_find_app_r.
  - simpl. rewrite decide_True by reflexivity. reflexivity.
  - apply list_find_None. eapply Forall_impl; [exact Hlt|].
    simpl. intros; lia.
Qed.

(** C1, as stated, fails in the in-memory variant, which has no route that
    reads one task: a GET for the id just created, and a GET for an id that
    was never assigned, are both answered with index.html and status 200. *)
Lemma get_by_id_serves_index_html :
  (InMemory.serve public_dir
     [post_milk;
      request GET ["api"; "tasks"; "1"]%string (object []) "";
      request GET ["api"; "tasks"; "999"]%string (object []) ""]
     InMemory.init).1
  = [ {| InMemory.status := 201; InMemory.payload := InMemory.OneTask milk |};
      {| InMemory.status := 200;
         InMemory.payload := InMemory.File (u16 "index.html") |};
      {| InMemory.status := 200;
         InMemory.payload := InMemory.File (u16 "index.html") |} ].
Proof. vm_compute. reflexivity. Qed.

(** The tasks of the table are its rows, each under its key. *)
Lemma jpa_findAll_spec r t :
  t ∈ Jpa.findAll r
  ↔ ∃ i row, Jpa.rows r !! i = Some row ∧ t = Jpa.entity i row.
Proof.
  unfold Jpa.findAll. rewrite list_elem_of_fmap. split.
  - intros ([i row] & -> & H%elem_of_map_to_list). eauto.
  - intros (i & row & H & ->). exists (i, row).
    split; [reflexivity|]. by apply elem_of_map_to_list.
Qed.

(** C1, amended: in the JPA variant a creation followed by [getById] of the
    returned id yields the task the creation returned; [getById] changes
    nothing, answers with a task exactly when that task is in the table and
    carries the id asked for, and answers 404 exactly when no task of the
    table carries it.  The in-memory variant has no such route: a GET or HEAD
    for /api/tasks/ followed by the digits of an id is answered with
    index.html, or with 404 when public/ has no index.html, and leaves the
    store alone; there the created task is the entry of the array that a
    search by the returned id finds. *)
Theorem create_then_read_back :
  (∀ b r t,
     (Jpa.create b r).1 = Jpa.Created t →
     ∃ i, Jpa.id t = Some i
          ∧ Jpa.getById i (Jpa.create b r).2
            = (Jpa.Ok t, (Jpa.create b r).2))
  ∧ (∀ i r,
       (Jpa.getById i r).2 = r
       ∧ (∀ t, (Jpa.getById i r).1 = Jpa.Ok t
               ↔ t ∈ Jpa.findAll r ∧ Jpa.id t = Some i)
       ∧ ((Jpa.getById i r).1 = Jpa.NotFound
          ↔ ∀ t, t ∈ Jpa.findAll r → Jpa.id t ≠ Some i))
  ∧ (∀ public m a t x b c s,
       InMemory.reads m = true →
       same_segment "api" a = true → same_segment "tasks" t = true →
       numeral x = true →
       InMemory.handle public
         {| InMemory.method := m; InMemory.path := [a; t; x];
            InMemory.body := b; InMemory.now := c |} s
       = (if bool_decide (u16 "index.html" ∈ public)
          then {| InMemory.status := 200;
                  InMemory.payload := InMemory.File (u16 "index.html") |}
          else {| InMemory.status := 404;
                  InMemory.payload := InMemory.Thrown "ENOENT" |}, s))
  ∧ (∀ c b s t,
       reachable s →
       InMemory.payload (InMemory.post_tasks c b s).1 = InMemory.OneTask t →
       InMemory.find (Some (InMemory.id t))
         (InMemory.tasks (InMemory.post_tasks c b s).2)
       = Some (length (InMemory.tasks s), t)).
Proof.
  split_and!.
  - intros b r t. destruct (Jpa.valid (Jpa.bind b)) eqn:Hv.
    + rewrite (jpa_create_valid _ _ Hv). simpl. intros [= <-].
      exists (Jpa.next r). split; [reflexivity|].
      unfold Jpa.getById, Jpa.findById. simpl.
      by rewrite lookup_insert_eq.
    + rewrite (jpa_create_invalid _ _ Hv). discriminate.
  - intros i r. unfold Jpa.getById, Jpa.findById. simpl.
    split_and!; [reflexivity| |].
    + intros t. rewrite jpa_findAll_spec.
      destruct (Jpa.rows r !! i) as [row|] eqn:Hrow; simpl; split.
      * intros [= <-]. split; [eauto|reflexivity].
      * intros [(k & row' & Hk & ->) [= ->]]. congruence.
      * discriminate.
      * intros [(k & row' & Hk & ->) [= ->]]. congruence.
    + destruct (Jpa.rows r !! i) as [row|] eqn:Hrow; simpl; split.
      * discriminate.
      * intros H. exfalso. apply (H (Jpa.entity i row)); [|reflexivity].
        apply jpa_findAll_spec. eauto.
      * intros _ t (k & row' & Hk & ->)%jpa_findAll_spec [= ->]. congruence.
      * reflexivity.
  - intros public m a t x b c s Hm Ha Ht Hx.
    rewrite handle_id_path by auto using numeral_plain.
    unfold InMemory.get_any.
    destruct m; try discriminate Hm; by case_bool_decide.
  - intros c b s t Hs H.
    destruct (post_tasks_created c b s t H) as (x & _ & _ & Ht & ->).
    simpl. apply find_appended.
    destruct (reachable_ids_fresh s Hs) as [Hlt _].
    rewrite Ht. simpl. exact Hlt.
Qed.

(** The first creation on the empty table and on a fresh server, a read of a
    table of one row, and a GET for the id the server returned. *)
Lemma create_then_read_back_witness :
  (∃ i, Jpa.id (Jpa.entity 1 (Jpa.columns (Jpa.bind (titled (u16 "x")))))
          = Some i
        ∧ Jpa.getById i (Jpa.create (titled (u16 "x")) Jpa.empty).2
          = (Jpa.Ok (Jpa.entity 1 (Jpa.columns (Jpa.bind (titled (u16 "x"))))),
             (Jpa.create (titled (u16 "x")) Jpa.empty).2))
  ∧ InMemory.handle public_dir
      {| InMemory.method := GET;
         InMemory.path := [u16 "api"; u16 "tasks"; u16 "1"];
         InMemory.body := object []; InMemory.now := [] |} one_task
    = (if bool_decide (u16 "index.html" ∈ public_dir)
       then {| InMemory.status := 200;
               InMemory.payload := InMemory.File (u16 "index.html") |}
       else {| InMemory.status := 404;
               InMemory.payload := InMemory.Thrown "ENOENT" |}, one_task)
  ∧ InMemory.find (Some (InMemory.id milk))
      (InMemory.tasks
         (InMemory.post_tasks (u16 "2024-05-01T09:00:00.000Z")
            (object [("title", JStr (u16 "Buy milk"))]%string)
            InMemory.init).2)
    = Some (length (InMemory.tasks InMemory.init), milk).
Proof.
  split_and!.
  - apply (proj1 create_then_read_back). vm_compute. reflexivity.
  - apply (proj1 (proj2 (proj2 create_then_read_back))); reflexivity.
  - apply (proj2 (proj2 (proj2 create_then_read_back))).
    + exists [], []. reflexivity.
    + vm_compute. reflexivity.
Defined.

End ReadBack.

(** * Deletion *)

Section Deletion.

Lemma delete_task_cases p s :
  match InMemory.find (parseInt p) (InMemory.tasks s) with
  | None =>
      InMemory.delete_task p s =
        ({| InMemory.status := 404;
            InMemory.payload := InMemory.Error "not found" |}, s)
  | Some (i, t) =>
      InMemory.delete_task p s =
        ({| InMemory.status := 200; InMemory.payload := InMemory.OneTask t |},
         {| InMemory.tasks := delete i (InMemory.tasks s);
            InMemory.nextId := InMemory.nextId s |})
  end.
Proof.
  unfold InMemory.delete_task.
  by destruct (InMemory.find (parseInt p) (InMemory.tasks s)) as [[i t]|].
Qed.

Lemma NoDup_fmap_delete {A B} (f : A → B) (l : list A) i x :
  NoDup (f <$> l) → l !! i = Some x → Forall (λ y, f y ≠ f x) (delete i l).
Proof.
  intros Hnd Hi. rewrite <- (take_drop_middle l i x Hi) in Hnd.
  rewrite delete_take_drop.
  rewrite fmap_app, fmap_cons in Hnd.
  apply NoDup_app in Hnd as (_ & Hdisj & Hnd2).
  apply NoDup_cons in Hnd2 as [Hnotin _].
  apply Forall_app. split; apply Forall_forall; intros y Hy E.
  - apply (Hdisj (f y)); [by apply list_elem_of_fmap_2|].
    rewrite E. apply list_elem_of_here.
  - apply Hnotin. rewrite <- E. by apply list_elem_of_fmap_2.
Qed.

Lemma retired_not_found n s :
  retired n s → InMemory.find (Some n) (InMemory.tasks s) = None.
Proof. intros [_ H]. simpl. by apply list_find_None. Qed.

Lemma retired_handle n public r s :
  retired n s → retired n (InMemory.handle public r s).2.
Proof.
  revert public r s. apply handle_invariant.
  - intros c b s [Hlt Hne]. unfold InMemory.post_tasks.
    repeat case_match; try (split; assumption).
    split; simpl; [lia|]. apply Forall_app. split; [exact Hne|].
    apply Forall_singleton. simpl. lia.
  - intros p b s [Hlt Hne].
    destruct (put_task_ids p b s) as (Hid & _ & Hnext).
    split; [by rewrite Hnext|].
    apply Forall_fmap with (f := InMemory.id) (P := λ i, i ≠ n).
    rewrite Hid. by apply Forall_fmap.
  - intros p s [Hlt Hne]. pose proof (delete_task_cases p s) as H.
    destruct (InMemory.find (parseInt p) (InMemory.tasks s)) as [[i t]|];
      rewrite H; [|by split].
    split; [exact Hlt|]. simpl. by apply Forall_delete.
Qed.

Lemma delete_task_retires p s :
  ids_fresh s →
  InMemory.status (InMemory.delete_task p s).1 = 200 →
  ∃ n, parseInt p = Some n ∧ retired n (InMemory.delete_task p s).2.
Proof.
  intros [Hlt Hnd] Hst. pose proof (delete_task_cases p s) as H.
  destruct (InMemory.find (parseInt p) (InMemory.tasks s))
    as [[i t]|] eqn:E; rewrite H in Hst |- *; [|discriminate Hst].
  apply find_Some in E as [Hi Hp]. exists (InMemory.id t).
  split; [exact Hp|]. split; simpl.
  - rewrite Forall_lookup in Hlt. exact (Hlt i t Hi).
  - by apply NoDup_fmap_delete.
Qed.

Lemma jpa_delete_cases i r :
  match Jpa.rows r !! i with
  | None => Jpa.delete i r = (Jpa.NotFound, r)
  | Some _ =>
      Jpa.delete i r =
        (Jpa.NoContent,
         {| Jpa.rows := delete i (Jpa.rows r); Jpa.next := Jpa.next r |})
  end.
Proof.
  unfold Jpa.delete, Jpa.findById. by destruct (Jpa.rows r !! i).
Qed.

Lemma retired_key_call i c r :
  retired_key i r → retired_key i (Jpa.call c r).2.
Proof.
  intros [Hlt Hnone]. destruct c as [|j|b|j b|j]; simpl; try by split.
  - destruct (Jpa.valid (Jpa.bind b)) eqn:Hv.
    + rewrite (jpa_create_valid _ _ Hv). split; simpl; [lia|].
      rewrite lookup_insert_ne by lia. exact Hnone.
    + by rewrite (jpa_create_invalid _ _ Hv).
  - split.
    + destruct (Jpa.valid (Jpa.bind b)) eqn:Hv.
      * destruct (Jpa.findById j r) as [t|] eqn:Hf.
        -- by rewrite (jpa_update_found _ _ _ _ Hv Hf).
        -- unfold Jpa.update. by rewrite Hv, Hf.
      * unfold Jpa.update. by rewrite Hv.
    + destruct (jpa_update_rows j b r) as [->|[Hsome ->]]; [done|].
      rewrite lookup_insert_ne; [done|].
      intros ->. rewrite Hnone in Hsome. by destruct Hsome.
  - pose proof (jpa_delete_cases j r) as H.
    destruct (Jpa.rows r !! j); rewrite H; [|by split].
    split; [exact Hlt|]. simpl.
    destruct (decide (j = i)) as [->|Hne].
    + apply lookup_delete_eq.
    + by rewrite lookup_delete_ne.
Qed.

Lemma jpa_calls_cons c cs r :
  Jpa.calls (c :: cs) r =
    ((Jpa.call c r).1 :: (Jpa.calls cs (Jpa.call c r).2).1,
     (Jpa.calls cs (Jpa.call c r).2).2).
Proof.
  simpl. destruct (Jpa.call c r) as [resp r1]. simpl.
  destruct (Jpa.calls cs r1) as [resps r2]. reflexivity.
Qed.

Lemma retired_key_calls i cs r :
  retired_key i r → retired_key i (Jpa.calls cs r).2.
Proof.
  revert r. induction cs as [|c cs IH]; intros r Hr; [exact Hr|].
  rewrite jpa_calls_cons. simpl. by apply IH, retired_key_call.
Qed.

Lemma keys_below_call c r : keys_below r → keys_below (Jpa.call c r).2.
Proof.
  intros Hr. destruct c as [|j|b|j b|j]; simpl; try exact Hr.
  - destruct (Jpa.valid (Jpa.bind b)) eqn:Hv.
    + rewrite (jpa_create_valid _ _ Hv). intros k. simpl.
      destruct (decide (Jpa.next r = k)) as [<-|Hne]; [lia|].
      rewrite lookup_insert_ne by done. intros Hk%Hr. lia.
    + by rewrite (jpa_create_invalid _ _ Hv).
  - destruct (Jpa.valid (Jpa.bind b)) eqn:Hv.
    + destruct (Jpa.findById j r) as [t|] eqn:Hf.
      * rewrite (jpa_update_found _ _ _ _ Hv Hf). intros k. simpl.
        apply fmap_Some in Hf as (row & Hrow & _).
        destruct (decide (j = k)) as [<-|Hne]; [intros _; apply Hr; eauto|].
        rewrite lookup_insert_ne by done. apply Hr.
      * unfold Jpa.update. by rewrite Hv, Hf.
    + unfold Jpa.update. by rewrite Hv.
  - pose proof (jpa_delete_cases j r) as H.
    destruct (Jpa.rows r !! j); rewrite H; [|exact Hr].
    intros k. simpl. intros Hk. apply Hr.
    destruct (decide (j = k)) as [<-|Hne].
    + rewrite lookup_delete_eq in Hk. by destruct Hk.
    + by rewrite lookup_delete_ne in Hk.
Qed.

(** Every table a session builds from the empty one keeps its keys below the
    generator. *)
Lemma keys_below_calls cs : keys_below (Jpa.calls cs Jpa.empty).2.
Proof.
  assert (H : ∀ r, keys_below r → keys_below (Jpa.calls cs r).2).
  { induction cs as [|c cs IH]; intros r Hr; [exact Hr|].
    rewrite jpa_calls_cons. simpl. by apply IH, keys_below_call. }
  apply H. intros k [row Hk]. simpl in Hk. by rewrite lookup_empty in Hk.
Qed.

(** C7, as stated, fails: after a successful deletion in the in-memory
    variant a GET for the deleted id does not fail; it is answered with
    index.html and status 200. *)
Lemma get_after_delete_serves_index_html :
  InMemory.serve public_dir
    [request DELETE ["api"; "tasks"; "1"]%string (object []) "";
     request GET ["api"; "tasks"; "1"]%string (object []) ""]
    one_task
  = ([ {| InMemory.status := 200; InMemory.payload := InMemory.OneTask milk |};
       {| InMemory.status := 200;
          InMemory.payload := InMemory.File (u16 "index.html") |} ],
     {| InMemory.tasks := []; InMemory.nextId := 2 |}).
Proof. vm_compute. reflexivity. Qed.

(** C7, amended: a deletion fails with 404 exactly when no task has the id,
    and otherwise removes that task and leaves the others as they were; the
    in-memory variant answers 200 with the removed task, the JPA variant 204
    without a body.  After a successful deletion, whatever requests follow, a
    further deletion of the id fails with 404 in both variants and no stored
    task carries the id; [getById] of the id fails with 404 in the JPA
    variant, the only one that has it. *)
Theorem delete_contract :
  (∀ p s,
     match InMemory.find (parseInt p) (InMemory.tasks s) with
     | None =>
         InMemory.delete_task p s =
           ({| InMemory.status := 404;
               InMemory.payload := InMemory.Error "not found" |}, s)
     | Some (i, t) =>
         InMemory.delete_task p s =
           ({| InMemory.status := 200;
               InMemory.payload := InMemory.OneTask t |},
            {| InMemory.tasks := delete i (InMemory.tasks s);
               InMemory.nextId := InMemory.nextId s |})
     end
     ∧ (InMemory.find (parseInt p) (InMemory.tasks s) = None
        ↔ ∀ t, t ∈ InMemory.tasks s → parseInt p ≠ Some (InMemory.id t)))
  ∧ (∀ public rs p s,
       reachable s →
       InMemory.status (InMemory.delete_task p s).1 = 200 →
       InMemory.status
         (InMemory.delete_task p
            (InMemory.serve public rs (InMemory.delete_task p s).2).2).1
       = 404
       ∧ ∀ t,
           t ∈ InMemory.tasks
                 (InMemory.serve public rs (InMemory.delete_task p s).2).2 →
           parseInt p ≠ Some (InMemory.id t))
  ∧ (∀ i r,
       match Jpa.rows r !! i with
       | None => Jpa.delete i r = (Jpa.NotFound, r)
       | Some _ =>
           Jpa.delete i r =
             (Jpa.NoContent,
              {| Jpa.rows := delete i (Jpa.rows r); Jpa.next := Jpa.next r |})
       end
       ∧ ∀ j, j ≠ i → Jpa.findById j (Jpa.delete i r).2 = Jpa.findById j r)
  ∧ (∀ i r cs,
       keys_below r →
       (Jpa.delete i r).1 = Jpa.NoContent →
       (Jpa.getById i (Jpa.calls cs (Jpa.delete i r).2).2).1 = Jpa.NotFound
       ∧ (Jpa.delete i (Jpa.calls cs (Jpa.delete i r).2).2).1 = Jpa.NotFound).
Proof.
  split_and!.
  - intros p s. split; [apply delete_task_cases|apply find_None].
  - intros public rs p s Hs Hst.
    destruct (delete_task_retires p s (reachable_ids_fresh s Hs) Hst)
      as (n & Hp & Hret).
    assert (Hlater : retired n
      (InMemory.serve public rs (InMemory.delete_task p s).2).2).
    { apply serve_invariant; [|exact Hret].
      intros r s'. apply retired_handle. }
    pose proof (retired_not_found n _ Hlater) as Hnone.
    rewrite <- Hp in Hnone. split.
    + pose proof (delete_task_cases p
        (InMemory.serve public rs (InMemory.delete_task p s).2).2) as H.
      rewrite Hnone in H. by rewrite H.
    + by apply find_None.
  - intros i r. pose proof (jpa_delete_cases i r) as H. split; [exact H|].
    intros j Hj. unfold Jpa.findById.
    destruct (Jpa.rows r !! i); rewrite H; [|done].
    simpl. by rewrite lookup_delete_ne.
  - intros i r cs Hr Hd.
    assert (Hret : retired_key i (Jpa.delete i r).2).
    { pose proof (jpa_delete_cases i r) as H.
      destruct (Jpa.rows r !! i) as [row|] eqn:Hrow;
        rewrite H in Hd |- *; [|discriminate Hd].
      split; simpl; [apply Hr; eauto|apply lookup_delete_eq]. }
    apply (retired_key_calls i cs) in Hret as [_ Hnone].
    split.
    + unfold Jpa.getById, Jpa.findById. simpl. by rewrite Hnone.
    + pose proof (jpa_delete_cases i (Jpa.calls cs (Jpa.delete i r).2).2)
        as H'.
      rewrite Hnone in H'. by rewrite H'.
Qed.

(** Deleting the one task of a store and creating another one; deleting the
    one row of a table and creating another one. *)
Lemma delete_contract_witness :
  (InMemory.status
     (InMemory.delete_task (u16 "1")
        (InMemory.serve public_dir [post_milk]
           (InMemory.delete_task (u16 "1") one_task).2).2).1
   = 404
   ∧ ∀ t,
       t ∈ InMemory.tasks
             (InMemory.serve public_dir [post_milk]
                (InMemory.delete_task (u16 "1") one_task).2).2 →
       parseInt (u16 "1") ≠ Some (InMemory.id t))
  ∧ ((Jpa.getById 1
        (Jpa.calls [Jpa.CallCreate (titled (u16 "y"))]
           (Jpa.delete 1 (Jpa.create (titled (u16 "x")) Jpa.empty).2).2).2).1
     = Jpa.NotFound
     ∧ (Jpa.delete 1
          (Jpa.calls [Jpa.CallCreate (titled (u16 "y"))]
             (Jpa.delete 1 (Jpa.create (titled (u16 "x")) Jpa.empty).2).2).2).1
       = Jpa.NotFound).
Proof.
  split.
  - apply (proj1 (proj2 delete_contract)).
    + exists public_dir, [post_milk]. vm_compute. reflexivity.
    + vm_compute. reflexivity.
  - apply (proj2 (proj2 (proj2 delete_contract))).
    + intros k [row Hk]. vm_compute in Hk.
      destruct (decide (k = 1)) as [->|Hne]; [vm_compute; reflexivity|].
      exfalso. revert Hk. clear -Hne. intros Hk.
      destruct k as [|[]|]; try discriminate Hk; try done.
    + vm_compute. reflexivity.
Defined.

End Deletion.

(** * Identifiers *)

Section Identifiers.

Lemma increasing_NoDup (l : list Z) : StronglySorted Z.lt l → NoDup l.
Proof.
  induction 1 as [|x l _ IH Hx]; [apply NoDup_nil_2|].
  apply NoDup_cons. split; [|exact IH].
  intros Hin. rewrite Forall_forall in Hx. specialize (Hx x Hin). lia.
Qed.

(** Ids handed out by later steps lie above an id handed out now. *)
Lemma increasing_cons (x b : Z) (l : list Z) :
  b = x + 1 →
  Forall (λ i, b ≤ i) l → StronglySorted Z.lt l →
  Forall (λ i, x ≤ i) (x :: l) ∧ StronglySorted Z.lt (x :: l).
Proof.
  intros -> Hl Hs. split.
  - apply Forall_cons. split; [lia|].
    eapply Forall_impl; [exact Hl|]. simpl. intros; lia.
  - apply SSorted_cons; [exact Hs|].
    eapply Forall_impl; [exact Hl|]. simpl. intros; lia.
Qed.

Lemma not_created resp :
  InMemory.status resp ≠ 201 → InMemory.created_id resp = None.
Proof. intros H. unfold InMemory.created_id. by rewrite bool_decide_eq_false_2. Qed.

Lemma post_tasks_cases c b s :
  (∃ t, InMemory.post_tasks c b s =
          ({| InMemory.status := 201; InMemory.payload := InMemory.OneTask t |},
           {| InMemory.tasks := InMemory.tasks s ++ [t];
              InMemory.nextId := InMemory.nextId s + 1 |})
        ∧ InMemory.id t = InMemory.nextId s)
  ∨ (∃ resp, InMemory.post_tasks c b s = (resp, s)
             ∧ InMemory.status resp ≠ 201).
Proof.
  unfold InMemory.post_tasks.
  destruct (prop "title" b) as [[]|]; try (right; eexists; by split).
  - destruct (truthy _); right; eexists; by split.
  - destruct (truthy _); right; eexists; by split.
  - destruct (_ || _); [right; eexists; by split|].
    left. eexists. by split.
Qed.

Lemma put_task_not_created p b s :
  InMemory.status (InMemory.put_task p b s).1 ≠ 201.
Proof. unfold InMemory.put_task. repeat case_match; simpl; done. Qed.

Lemma delete_task_not_created p s :
  InMemory.status (InMemory.delete_task p s).1 ≠ 201
  ∧ InMemory.nextId (InMemory.delete_task p s).2 = InMemory.nextId s.
Proof. unfold InMemory.delete_task. repeat case_match; simpl; done. Qed.

Lemma handle_created public r s :
  match InMemory.created_id (InMemory.handle public r s).1 with
  | Some i =>
      i = InMemory.nextId s
      ∧ InMemory.nextId (InMemory.handle public r s).2 = InMemory.nextId s + 1
  | None =>
      InMemory.nextId (InMemory.handle public r s).2 = InMemory.nextId s
  end.
Proof.
  destruct (handle_cases public r s)
    as [E|[[i E]|[[i E]|(resp & E & Hst)]]]; rewrite E; clear E.
  - destruct (post_tasks_cases (InMemory.now r) (InMemory.body r) s)
      as [(t & -> & Hid)|(resp & -> & Hst)].
    + by split.
    + simpl. by rewrite not_created.
  - rewrite not_created by apply put_task_not_created.
    apply put_task_ids.
  - rewrite not_created by apply delete_task_not_created.
    apply delete_task_not_created.
  - simpl. by rewrite not_created.
Qed.

Lemma created_ids_increasing public rs s :
  Forall (λ i, InMemory.nextId s ≤ i)
    (InMemory.created_ids (InMemory.serve public rs s).1)
  ∧ StronglySorted Z.lt (InMemory.created_ids (InMemory.serve public rs s).1).
Proof.
  revert s. induction rs as [|r rs IH]; intros s.
  { split; [apply Forall_nil_2|apply SSorted_nil]. }
  rewrite serve_cons. simpl. unfold InMemory.created_ids. simpl.
  pose proof (handle_created public r s) as H.
  destruct (IH (InMemory.handle public r s).2) as [Hge Hs].
  destruct (InMemory.created_id (InMemory.handle public r s).1) as [i|].
  - destruct H as [-> Hnext]. apply (increasing_cons _ _ _ Hnext Hge Hs).
  - rewrite H in Hge. by split.
Qed.

Lemma jpa_call_created c r :
  match Jpa.created_id (Jpa.call c r).1 with
  | Some i => i = Jpa.next r ∧ Jpa.next (Jpa.call c r).2 = Jpa.next r + 1
  | None => Jpa.next (Jpa.call c r).2 = Jpa.next r
  end.
Proof.
  destruct c as [|j|b|j b|j]; simpl.
  - reflexivity.
  - by destruct (Jpa.findById j r).
  - destruct (Jpa.valid (Jpa.bind b)) eqn:Hv.
    + by rewrite (jpa_create_valid _ _ Hv).
    + by rewrite (jpa_create_invalid _ _ Hv).
  - destruct (Jpa.valid (Jpa.bind b)) eqn:Hv.
    + destruct (Jpa.findById j r) as [t|] eqn:Hf.
      * by rewrite (jpa_update_found _ _ _ _ Hv Hf).
      * unfold Jpa.update. by rewrite Hv, Hf.
    + unfold Jpa.update. by rewrite Hv.
  - pose proof (jpa_delete_cases j r) as H.
    by destruct (Jpa.rows r !! j); rewrite H.
Qed.

Lemma jpa_created_ids_increasing cs r :
  Forall (λ i, Jpa.next r ≤ i) (Jpa.created_ids (Jpa.calls cs r).1)
  ∧ StronglySorted Z.lt (Jpa.created_ids (Jpa.calls cs r).1).
Proof.
  revert r. induction cs as [|c cs IH]; intros r.
  { split; [apply Forall_nil_2|apply SSorted_nil]. }
  rewrite jpa_calls_cons. simpl. unfold Jpa.created_ids. simpl.
  pose proof (jpa_call_created c r) as H.
  destruct (IH (Jpa.call c r).2) as [Hge Hs].
  destruct (Jpa.created_id (Jpa.call c r).1) as [i|].
  - destruct H as [-> Hnext]. apply (increasing_cons _ _ _ Hnext Hge Hs).
  - rewrite H in Hge. by split.
Qed.

(** C4: in every session on one store, whatever requests come between them,
    the ids returned by the successful creations are pairwise distinct.  In
    the in-memory variant they are strictly increasing and start at the
    counter, so that an id is never handed out again, also after the task
    that held it was deleted; the tasks stored at any time carry pairwise
    distinct ids. *)
Theorem created_ids_distinct :
  (∀ public rs s,
     StronglySorted Z.lt (InMemory.created_ids (InMemory.serve public rs s).1)
     ∧ Forall (λ i, InMemory.nextId s ≤ i)
         (InMemory.created_ids (InMemory.serve public rs s).1)
     ∧ NoDup (InMemory.created_ids (InMemory.serve public rs s).1))
  ∧ (∀ public rs,
       NoDup (InMemory.id
                <$> InMemory.tasks
                      (InMemory.serve public rs InMemory.init).2))
  ∧ (∀ cs r, NoDup (Jpa.created_ids (Jpa.calls cs r).1)).
Proof.
  split_and!.
  - intros public rs s.
    destruct (created_ids_increasing public rs s) as [Hge Hs].
    split_and!; [exact Hs|exact Hge|by apply increasing_NoDup].
  - intros public rs.
    apply (reachable_ids_fresh
             (InMemory.serve public rs InMemory.init).2).
    by exists public, rs.
  - intros cs r. apply increasing_NoDup, jpa_created_ids_increasing.
Qed.

End Identifiers.

(** * Titles *)

Section Titles.

Lemma post_tasks_accepts c b s :
  InMemory.status (InMemory.post_tasks c b s).1 = 201
  ↔ ∃ x, prop "title" b = Some (JStr x) ∧ trim x ≠ [].
Proof.
  unfold InMemory.post_tasks. split.
  - destruct (prop "title" b) as [v|]; simpl; [|discriminate].
    destruct v as [|b0|n|x|l|m]; simpl;
      try discriminate; try (by destruct b0); try (by destruct (negb _)).
    destruct (_ || _) eqn:E; [discriminate|]. intros _.
    apply orb_false_iff in E as [_ E%bool_decide_eq_false]. eauto.
  - intros (x & -> & Hx).
    assert (x ≠ []) by (intros ->; by apply Hx).
    rewrite !bool_decide_eq_false_2 by done. reflexivity.
Qed.

Lemma post_tasks_blank c b s x :
  prop "title" b = Some (JStr x) → trim x = [] →
  InMemory.post_tasks c b s =
    ({| InMemory.status := 400;
        InMemory.payload := InMemory.Error "title required" |}, s).
Proof.
  intros Hb Hx. unfold InMemory.post_tasks. rewrite Hb.
  rewrite (bool_decide_eq_true_2 (trim x = [])) by done.
  by rewrite orb_true_r.
Qed.

Lemma jpa_valid_titled x :
  Jpa.valid (Jpa.bind (titled x)) = true ↔ (1 ≤ length (trim x) ≤ 100)%nat.
Proof.
  unfold Jpa.valid. simpl. rewrite trim_idempotent, andb_true_r.
  apply bool_decide_eq_true.
Qed.

(** C3, as stated, fails in the in-memory variant, which has no upper bound
    on the title: a title of 101 characters is accepted. *)
Lemma long_title_accepted :
  length (trim (repeat 0x61%N 101)) = 101%nat
  ∧ InMemory.status
      (InMemory.post_tasks (u16 "")
         (object [("title", JStr (repeat 0x61%N 101))]%string)
         InMemory.init).1
    = 201.
Proof. vm_compute. split; reflexivity. Qed.

(** C3, amended: the in-memory variant accepts a creation exactly when the
    title is a string whose trimmed form is not empty, with no upper bound,
    and answers a string title that trims to nothing with 400; a title of 100
    characters succeeds, the empty title and a title of three blanks fail with
    400.  The JPA variant accepts a body that has only a title exactly when
    the trimmed title has 1 to 100 characters, and answers 400 otherwise. *)
Theorem create_title_contract :
  (∀ c b s,
     InMemory.status (InMemory.post_tasks c b s).1 = 201
     ↔ ∃ x, prop "title" b = Some (JStr x) ∧ trim x ≠ [])
  ∧ (∀ c b s x,
       prop "title" b = Some (JStr x) → trim x = [] →
       InMemory.post_tasks c b s =
         ({| InMemory.status := 400;
             InMemory.payload := InMemory.Error "title required" |}, s))
  ∧ (∀ c s,
       InMemory.status
         (InMemory.post_tasks c
            (object [("title", JStr (repeat 0x61%N 100))]%string) s).1 = 201
       ∧ InMemory.status
           (InMemory.post_tasks c
              (object [("title", JStr (u16 ""))]%string) s).1 = 400
       ∧ InMemory.status
           (InMemory.post_tasks c
              (object [("title", JStr (u16 "   "))]%string) s).1 = 400)
  ∧ (∀ x r,
       ((∃ t, (Jpa.create (titled x) r).1 = Jpa.Created t)
        ↔ (1 ≤ length (trim x) ≤ 100)%nat)
       ∧ ((Jpa.create (titled x) r).1 = Jpa.BadRequest
          ↔ ¬ (1 ≤ length (trim x) ≤ 100)%nat)).
Proof.
  split_and!.
  - apply post_tasks_accepts.
  - apply post_tasks_blank.
  - intros c s. split_and!.
    + apply post_tasks_accepts. eexists. split; [by vm_compute|].
      by vm_compute.
    + erewrite post_tasks_blank; [reflexivity|by vm_compute|by vm_compute].
    + erewrite post_tasks_blank; [reflexivity|by vm_compute|by vm_compute].
  - intros x r. rewrite <- jpa_valid_titled.
    destruct (Jpa.valid (Jpa.bind (titled x))) eqn:Hv.
    + rewrite (jpa_create_valid _ _ Hv). simpl. split.
      * split; [done|]. eauto.
      * split; [discriminate|]. by intros [].
    + rewrite (jpa_create_invalid _ _ Hv). simpl. split.
      * split; [by intros [t ?]|discriminate].
      * split; [discriminate|done].
Qed.

(** A title that is blanks only, and a title of 100 characters. *)
Lemma create_title_contract_witness :
  InMemory.status
    (InMemory.post_tasks (u16 "")
       (object [("title", JStr (repeat 0x61%N 100))]%string)
       InMemory.init).1 = 201
  ∧ InMemory.post_tasks (u16 "")
      (object [("title", JStr (u16 "   "))]%string) InMemory.init
    = ({| InMemory.status := 400;
          InMemory.payload := InMemory.Error "title required" |},
       InMemory.init)
  ∧ ∃ t, (Jpa.create (titled (repeat 0x61%N 100)) Jpa.empty).1 = Jpa.Created t.
Proof.
  split_and!.
  - apply (proj1 create_title_contract). exists (repeat 0x61%N 100).
    vm_compute. split; [reflexivity|discriminate].
  - apply (proj1 (proj2 create_title_contract)) with (x := u16 "   ").
    + vm_compute. reflexivity.
    + vm_compute. reflexivity.
  - apply (proj1 (proj2 (proj2 (proj2 create_title_contract))
                   (repeat 0x61%N 100) Jpa.empty)).
    vm_compute. lia.
Defined.

Lemma titles_ok_post c b s :
  titles_ok s → titles_ok (InMemory.post_tasks c b s).2.
Proof.
  intros Hs.
  destruct (post_tasks_cases c b s) as [(t & E & _)|(resp & -> & _)];
    [|exact Hs].
  assert (H : InMemory.payload (InMemory.post_tasks c b s).1
              = InMemory.OneTask t) by by rewrite E.
  destruct (post_tasks_created c b s t H) as (x & _ & Hx & -> & ->).
  apply Forall_app. split; [exact Hs|].
  apply Forall_singleton. simpl. by apply trim_trimmed.
Qed.

Lemma titles_ok_delete p s :
  titles_ok s → titles_ok (InMemory.delete_task p s).2.
Proof.
  intros Hs. pose proof (delete_task_cases p s) as H.
  destruct (InMemory.find (parseInt p) (InMemory.tasks s)) as [[i t]|];
    rewrite H; [|exact Hs].
  simpl. by apply Forall_delete.
Qed.

(** C2: creations and deletions keep every stored title non-empty and
    trimmed, but an update stores the title of its body as it comes: after
    [PUT /api/tasks/1] with an empty title, and likewise with a title in
    blanks, the stored title is not well formed. *)
Theorem put_stores_title_unchecked :
  (∀ c b s, titles_ok s → titles_ok (InMemory.post_tasks c b s).2)
  ∧ (∀ p s, titles_ok s → titles_ok (InMemory.delete_task p s).2)
  ∧ titles_ok one_task
  ∧ InMemory.title
      <$> InMemory.tasks
            (InMemory.handle public_dir
               (request PUT ["api"; "tasks"; "1"]%string
                  (object [("title", JStr (u16 ""))]%string) "")
               one_task).2
    = [JStr []]
  ∧ ¬ titles_ok
        (InMemory.handle public_dir
           (request PUT ["api"; "tasks"; "1"]%string
              (object [("title", JStr (u16 ""))]%string) "")
           one_task).2
  ∧ ¬ titles_ok
        (InMemory.handle public_dir
           (request PUT ["api"; "tasks"; "1"]%string
              (object [("title", JStr (u16 " x "))]%string) "")
           one_task).2.
Proof.
  split_and!.
  - apply titles_ok_post.
  - apply titles_ok_delete.
  - apply Forall_singleton. by vm_compute.
  - by vm_compute.
  - intros H. apply Forall_inv in H. vm_compute in H. by destruct H.
  - intros H. apply Forall_inv in H. vm_compute in H. by destruct H.
Qed.

(** The first creation stores a well-formed title, and deleting its task
    leaves none behind. *)
Lemma put_stores_title_unchecked_witness :
  titles_ok
    (InMemory.post_tasks (u16 "2024-05-01T09:00:00.000Z")
       (object [("title", JStr (u16 "Buy milk"))]%string) InMemory.init).2
  ∧ titles_ok (InMemory.delete_task (u16 "1") one_task).2.
Proof.
  split.
  - apply (proj1 put_stores_title_unchecked). apply Forall_nil_2.
  - apply (proj1 (proj2 put_stores_title_unchecked)).
    apply Forall_singleton. vm_compute. split; [discriminate|reflexivity].
Defined.

End Titles.

(** * Ids in paths *)

Section IdsInPaths.

Lemma digit_char d : 0 ≤ d < 10 → digit (Z.to_N (0x30 + d)) = Some d.
Proof.
  intros Hd. unfold digit.
  assert (H : (0x30 <=? Z.to_N (0x30 + d))%N && (Z.to_N (0x30 + d) <=? 0x39)%N
              = true).
  { apply andb_true_iff. split; apply N.leb_le; lia. }
  rewrite H. f_equal. lia.
Qed.

Lemma digit_char_range d c :
  0 ≤ d < 10 → c = Z.to_N (0x30 + d) → (0x30 ≤ c ≤ 0x39)%N.
Proof. intros Hd ->. lia. Qed.

(** The digits start with a digit character. *)
Lemma decimal_head f n :
  0 ≤ n → ∃ c r, decimal (S f) n = c :: r ∧ (0x30 ≤ c ≤ 0x39)%N.
Proof.
  revert n. induction f as [|f IH]; intros n Hn; simpl.
  - destruct (n <? 10) eqn:E; eexists _, _; (split; [reflexivity|]).
    + apply Z.ltb_lt in E. lia.
    + pose proof (Z.mod_pos_bound n 10). lia.
  - destruct (n <? 10) eqn:E.
    + eexists _, _. split; [reflexivity|]. apply Z.ltb_lt in E. lia.
    + destruct (IH (n / 10)) as (c & r & Hd & Hc).
      { apply Z.div_pos; lia. }
      simpl in Hd. rewrite Hd. eexists _, _. split; [reflexivity|exact Hc].
Qed.

(** Reading the digits of [n] back yields [n], whatever follows them. *)
Lemma digits_decimal f n rest any :
  0 ≤ n < 2 ^ Z.of_nat (S f) →
  digits (decimal (S f) n ++ rest) 0 any = digits rest n true.
Proof.
  revert n rest any. induction f as [|f IH]; intros n rest any Hn.
  - assert (n < 10) by (change (2 ^ Z.of_nat 1) with 2 in Hn; lia).
    simpl. rewrite (proj2 (Z.ltb_lt n 10)) by done. simpl.
    rewrite digit_char by lia. f_equal; lia.
  - change (decimal (S (S f)) n)
      with (if n <? 10 then [Z.to_N (0x30 + n)]
            else decimal (S f) (n / 10) ++ [Z.to_N (0x30 + n mod 10)]).
    destruct (n <? 10) eqn:E.
    + apply Z.ltb_lt in E. simpl. rewrite digit_char by lia. f_equal; lia.
    + apply Z.ltb_ge in E. rewrite <- app_assoc. rewrite IH.
      * simpl. pose proof (Z.mod_pos_bound n 10).
        rewrite digit_char by lia. f_equal.
        pose proof (Z.div_mod n 10); lia.
      * split; [apply Z.div_pos; lia|].
        rewrite Nat2Z.inj_succ, Z.pow_succ_r in Hn by lia.
        apply Z.div_lt_upper_bound; lia.
Qed.

Lemma log2_fuel n :
  0 ≤ n → 0 ≤ n < 2 ^ Z.of_nat (S (Z.to_nat (Z.log2 n))).
Proof.
  intros Hn. split; [exact Hn|].
  rewrite Nat2Z.inj_succ, Z2Nat.id by apply Z.log2_nonneg.
  destruct (decide (n = 0)) as [->|Hne]; [reflexivity|].
  apply Z.log2_spec. lia.
Qed.

Lemma parseInt_unsigned c r :
  (0x30 ≤ c ≤ 0x39)%N → parseInt (c :: r) = digits (c :: r) 0 false.
Proof.
  intros Hc. unfold parseInt.
  assert (Hws : is_whitespace c = false).
  { unfold is_whitespace.
    repeat (apply orb_false_iff; split);
      try (apply N.eqb_neq; lia).
    apply andb_false_iff. left. apply N.leb_gt. lia. }
  simpl trimStart. rewrite Hws.
  destruct c as [|p]; [lia|].
  do 6 (destruct p as [p|p|]; try lia; try reflexivity).
Qed.

Lemma parseInt_minus r : parseInt (0x2D%N :: r) = Z.opp <$> digits r 0 false.
Proof. reflexivity. Qed.

Lemma digits_stop tail n :
  (∀ c r, tail = c :: r → digit c = None) → digits tail n true = Some n.
Proof.
  intros H. destruct tail as [|c r]; [reflexivity|].
  simpl. by rewrite (H c r).
Qed.

Lemma parseInt_decimal_tail n tail :
  (∀ c r, tail = c :: r → digit c = None) →
  parseInt (number_to_string n ++ tail) = Some n.
Proof.
  intros Htail. unfold number_to_string.
  destruct (n <? 0) eqn:E.
  - apply Z.ltb_lt in E. rewrite <- app_comm_cons, parseInt_minus.
    rewrite digits_decimal by (apply log2_fuel; lia).
    rewrite (digits_stop _ _ Htail). simpl. f_equal. lia.
  - apply Z.ltb_ge in E.
    destruct (decimal_head (Z.to_nat (Z.log2 n)) n E) as (c & r & Hd & Hc).
    rewrite Hd, <- app_comm_cons, parseInt_unsigned by exact Hc.
    rewrite app_comm_cons, <- Hd.
    rewrite digits_decimal by (apply log2_fuel; lia).
    apply digits_stop, Htail.
Qed.

(** X1: reading back the text of a safe integer yields the integer, also
    when characters that are no digits follow: the path [/api/tasks/7] and the
    path [/api/tasks/7abc] both name id 7. *)
Theorem id_text_round_trip n tail :
  safe_integer n →
  (∀ c r, tail = c :: r → digit c = None) →
  parseInt (number_to_string n ++ tail) = Some n.
Proof. intros _. apply parseInt_decimal_tail. Qed.

(** The id 2024 followed by letters. *)
Lemma id_text_round_trip_witness :
  parseInt (number_to_string 2024 ++ u16 "abc") = Some 2024.
Proof.
  apply id_text_round_trip.
  - unfold safe_integer. vm_compute. reflexivity.
  - intros c r [= <- _]. reflexivity.
Defined.

Lemma parseInt_number_to_string n : parseInt (number_to_string n) = Some n.
Proof.
  rewrite <- (app_nil_r (number_to_string n)).
  apply parseInt_decimal_tail. discriminate.
Qed.

Lemma number_to_string_nonempty n : number_to_string n ≠ [].
Proof.
  unfold number_to_string. destruct (n <? 0) eqn:E; [discriminate|].
  apply Z.ltb_ge in E.
  destruct (decimal_head (Z.to_nat (Z.log2 n)) n E) as (c & r & -> & _).
  discriminate.
Qed.

Lemma decimal_digits f n :
  0 ≤ n → Forall (λ c, (0x30 ≤ c ≤ 0x39)%N) (decimal f n).
Proof.
  revert n. induction f as [|f IH]; intros n Hn; simpl; [constructor|].
  destruct (n <? 10) eqn:E.
  - apply Z.ltb_lt in E. apply Forall_singleton. lia.
  - apply Forall_app. split.
    + apply IH, Z.div_pos; lia.
    + apply Forall_singleton. pose proof (Z.mod_pos_bound n 10). lia.
Qed.

(** The text of a number has no character that an escape, a separator or a
    dot segment is made of. *)
Lemma number_to_string_plain n : plain (number_to_string n) = true.
Proof.
  apply andb_true_iff. split.
  - apply negb_true_iff, bool_decide_eq_false_2, number_to_string_nonempty.
  - apply forallb_forall. intros c Hc%list_elem_of_In.
    apply negb_true_iff, bool_decide_eq_false_2.
    assert (H : c = 0x2D%N ∨ (0x30 ≤ c ≤ 0x39)%N).
    { unfold number_to_string in Hc. destruct (n <? 0) eqn:E.
      - apply Z.ltb_lt in E. apply elem_of_cons in Hc as [->|Hc]; [by left|].
        right. revert c Hc. apply Forall_forall, decimal_digits. lia.
      - apply Z.ltb_ge in E. right. revert c Hc.
        apply Forall_forall, decimal_digits. lia. }
    rewrite !not_elem_of_cons.
    destruct H as [->|H]; split_and!; try lia; try done; apply not_elem_of_nil.
Qed.

(** In an array without duplicate ids the search by the id of an entry finds
    that entry. *)
Lemma find_listed (l : list InMemory.Task) i t :
  NoDup (InMemory.id <$> l) → l !! i = Some t →
  InMemory.find (Some (InMemory.id t)) l = Some (i, t).
Proof.
  intros Hnd Hi. simpl. apply list_find_Some. split_and!; [done..|].
  intros j y Hj Hlt E.
  assert (j = i); [|lia].
  apply (NoDup_lookup (InMemory.id <$> l) j i (InMemory.id t)); [done|..].
  - by rewrite list_lookup_fmap, Hj, <- E.
  - by rewrite list_lookup_fmap, Hi.
Qed.

End IdsInPaths.

(** * The listing, and what requests leave alone *)

Section Listing.
Import InMemory.

Lemma handle_load public c s : handle public (Client.load c) s = get_tasks s.
Proof. reflexivity. Qed.

Lemma StronglySorted_sublist {A} (R : relation A) (l1 l2 : list A) :
  l1 `sublist_of` l2 → StronglySorted R l2 → StronglySorted R l1.
Proof.
  induction 1 as [|x l1 l2 Hsub IH|x l1 l2 Hsub IH]; intros Hs.
  - constructor.
  - apply StronglySorted_cons in Hs as [Hx Hs].
    apply StronglySorted_cons. split; [|by apply IH].
    rewrite Forall_forall in Hx |- *. intros y Hy.
    apply Hx. by eapply elem_of_sublist.
  - apply StronglySorted_cons in Hs as [_ Hs]. by apply IH.
Qed.

Lemma oldest_first_handle public r s :
  Forall (λ t, id t < nextId s) (tasks s)
  ∧ StronglySorted Z.lt (id <$> tasks s) →
  Forall (λ t, id t < nextId (handle public r s).2)
    (tasks (handle public r s).2)
  ∧ StronglySorted Z.lt (id <$> tasks (handle public r s).2).
Proof.
  revert public r s.
  apply (handle_invariant
           (λ s, Forall (λ t, id t < nextId s) (tasks s)
                 ∧ StronglySorted Z.lt (id <$> tasks s))).
  - intros c b s [Hlt Hs].
    destruct (post_tasks_cases c b s) as [(t & -> & Hid)|(resp & -> & _)];
      [|by split].
    simpl. split.
    + apply Forall_app. split.
      * eapply Forall_impl; [exact Hlt|]. simpl. intros; lia.
      * apply Forall_singleton. lia.
    + rewrite fmap_app. apply StronglySorted_app_2; [|exact Hs|].
      * intros x1 x2 Hx1 ->%list_elem_of_singleton.
        apply list_elem_of_fmap in Hx1 as (t' & -> & Hin).
        rewrite Forall_forall in Hlt. specialize (Hlt t' Hin). lia.
      * repeat constructor.
  - intros p b s [Hlt Hs].
    destruct (put_task_ids p b s) as (Hid & _ & Hnext). split.
    + rewrite Hnext.
      apply Forall_fmap with (f := id) (P := λ i, i < nextId s).
      rewrite Hid. by apply Forall_fmap.
    + by rewrite Hid.
  - intros p s [Hlt Hs]. pose proof (delete_task_cases p s) as H.
    destruct (find (parseInt p) (tasks s)) as [[i t]|]; rewrite H;
      [|by split].
    simpl. split; [by apply Forall_delete|].
    rewrite list_fmap_delete.
    eapply StronglySorted_sublist; [apply sublist_delete|exact Hs].
Qed.

Lemma served_ids_increasing public rs :
  StronglySorted Z.lt (id <$> tasks (serve public rs init).2).
Proof.
  apply (serve_invariant
           (λ s, Forall (λ t, id t < nextId s) (tasks s)
                 ∧ StronglySorted Z.lt (id <$> tasks s))).
  - intros r s. apply oldest_first_handle.
  - split; constructor.
Qed.

(** X2: after every sequence of requests to a server that started empty, the
    listing answers 200 with the stored array, whose ids are strictly
    increasing (the oldest task comes first), and leaves the store as it
    was. *)
Theorem listing_oldest_first public rs c :
  handle public (Client.load c) (serve public rs init).2
  = ({| status := 200; payload := AllTasks (tasks (serve public rs init).2) |},
     (serve public rs init).2)
  ∧ StronglySorted Z.lt (id <$> tasks (serve public rs init).2).
Proof. split; [apply handle_load|apply served_ids_increasing]. Qed.

Lemma put_task_failed p b s :
  400 ≤ status (put_task p b s).1 → (put_task p b s).2 = s.
Proof.
  unfold put_task. destruct (find (parseInt p) (tasks s)) as [[i t]|];
    simpl; [lia|done].
Qed.

Lemma delete_task_failed p s :
  400 ≤ status (delete_task p s).1 → (delete_task p s).2 = s.
Proof.
  pose proof (delete_task_cases p s) as H.
  destruct (find (parseInt p) (tasks s)) as [[i t]|]; rewrite H;
    simpl; [lia|done].
Qed.

Lemma handle_other public r s :
  method r ≠ POST → method r ≠ PUT → method r ≠ DELETE →
  (handle public r s).2 = s.
Proof.
  intros H1 H2 H3. unfold handle, get_tasks, get_any.
  destruct (method r); try done; repeat case_match; reflexivity.
Qed.

(** X3: a request whose method is not POST, PUT or DELETE never changes the
    store, and neither does a request of any method that is answered with an
    error status (400, 404 or 500). *)
Theorem errors_and_reads_keep_the_store public r s :
  (method r ≠ POST → method r ≠ PUT → method r ≠ DELETE →
   (handle public r s).2 = s)
  ∧ (400 ≤ status (handle public r s).1 → (handle public r s).2 = s).
Proof.
  split.
  - apply handle_other.
  - destruct (handle_cases public r s)
      as [E|[[i E]|[[i E]|(resp & E & _)]]]; rewrite E.
    + destruct (post_tasks_cases (now r) (body r) s)
        as [(t & -> & _)|(resp & -> & _)]; simpl; [lia|done].
    + apply put_task_failed.
    + apply delete_task_failed.
    + done.
Qed.

(** A GET for the listing, and a deletion of an id nobody holds. *)
Lemma errors_and_reads_keep_the_store_witness :
  (handle public_dir (Client.load []) one_task).2 = one_task
  ∧ (handle public_dir
       (request DELETE ["api"; "tasks"; "9"]%string (object []) "")
       one_task).2 = one_task.
Proof.
  split.
  - apply (proj1 (errors_and_reads_keep_the_store _ _ _)); discriminate.
  - apply (proj2 (errors_and_reads_keep_the_store _ _ _)).
    vm_compute. discriminate.
Defined.

(** X4: the ids the successful creations of a session return are consecutive:
    they are the counter at the start, the next integer, and so on, without a
    gap, and the counter ends as many steps further as tasks were created. *)
Theorem created_ids_consecutive public rs s :
  created_ids (serve public rs s).1
  = seqZ (nextId s) (nextId (serve public rs s).2 - nextId s)
  ∧ nextId s ≤ nextId (serve public rs s).2.
Proof.
  revert s. induction rs as [|r rs IH]; intros s.
  { simpl. rewrite Z.sub_diag. split; [reflexivity|lia]. }
  rewrite serve_cons. simpl. unfold created_ids. simpl.
  pose proof (handle_created public r s) as H.
  destruct (IH (handle public r s).2) as [Hids Hle].
  fold (created_ids (serve public rs (handle public r s).2).1).
  destruct (created_id (handle public r s).1) as [i|].
  - destruct H as [-> Hnext]. rewrite Hids, Hnext in *. split; [|lia].
    rewrite (seqZ_cons (nextId s)) by lia. f_equal. f_equal; lia.
  - rewrite H in *. by split.
Qed.

End Listing.

(** * Repeating a request *)

Section Repeating.
Import InMemory.

Lemma list_find_insert_same {A} (P : A → Prop) `{∀ x, Decision (P x)}
    (l : list A) i x y :
  list_find P l = Some (i, x) → P y → list_find P (<[i := y]> l) = Some (i, y).
Proof.
  intros Hf Hy. apply list_find_Some in Hf as (Hi & Hx & Hleast).
  apply list_find_Some. split_and!.
  - apply list_lookup_insert_eq. by eapply lookup_lt_Some.
  - exact Hy.
  - intros j z Hj Hlt. rewrite list_lookup_insert_ne in Hj by lia.
    by eapply Hleast.
Qed.

Lemma put_task_twice p b s :
  put_task p b (put_task p b s).2 = put_task p b s.
Proof.
  unfold put_task at 2 3.
  destruct (find (parseInt p) (tasks s)) as [[i t]|] eqn:E.
  - simpl. unfold put_task. simpl.
    destruct (parseInt p) as [n|] eqn:Hp; [|discriminate E]. simpl in *.
    pose proof E as (_ & Hid & _)%list_find_Some.
    erewrite list_find_insert_same; [|exact E|].
    + rewrite list_insert_insert_eq.
      destruct (prop "title" b), (prop "completed" b); reflexivity.
    + destruct (prop "title" b), (prop "completed" b); exact Hid.
  - simpl. unfold put_task. by rewrite E.
Qed.

Lemma handle_put public r :
  method r = PUT →
  (∃ i, ∀ s, handle public r s = put_task i (body r) s)
  ∨ (∃ resp, ∀ s, handle public r s = (resp, s)).
Proof.
  intros Hm.
  destruct (handle_shape public r)
    as [(Hm' & _)|[(i & p & _ & _ & _ & E)
       |[(i & p & Hm' & _)|[(Hm' & _)|(resp & E & _)]]]];
    eauto; rewrite Hm in Hm'; discriminate.
Qed.

Lemma handle_delete public r :
  method r = DELETE →
  (∃ i, ∀ s, handle public r s = delete_task i s)
  ∨ (∃ resp, ∀ s, handle public r s = (resp, s)).
Proof.
  intros Hm.
  destruct (handle_shape public r)
    as [(Hm' & _)|[(i & p & Hm' & _)
       |[(i & p & _ & _ & _ & E)|[(Hm' & _)|(resp & E & _)]]]];
    eauto; rewrite Hm in Hm'; discriminate.
Qed.

Lemma delete_task_twice p s :
  ids_fresh s → (delete_task p (delete_task p s).2).2 = (delete_task p s).2.
Proof.
  intros Hs.
  destruct (decide (status (delete_task p s).1 = 200)) as [Hok|Hno].
  - destruct (delete_task_retires p s Hs Hok) as (n & Hp & Hret).
    apply retired_not_found in Hret. rewrite <- Hp in Hret.
    pose proof (delete_task_cases p (delete_task p s).2) as H.
    rewrite Hret in H. by rewrite H.
  - pose proof (delete_task_cases p s) as H.
    destruct (find (parseInt p) (tasks s)) as [[i t]|] eqn:E.
    + rewrite H in Hno. by destruct Hno.
    + rewrite H. simpl. by rewrite H.
Qed.

(** X5: PUT and DELETE are idempotent.  A PUT sent a second time gets the
    answer of the first and leaves the store as the first left it; on a store
    the server can be in, a DELETE sent a second time leaves the store as the
    first left it. *)
Theorem put_and_delete_idempotent public r s :
  (method r = PUT →
   handle public r (handle public r s).2 = handle public r s)
  ∧ (method r = DELETE → reachable s →
     (handle public r (handle public r s).2).2 = (handle public r s).2).
Proof.
  split.
  - intros Hm. destruct (handle_put public r Hm) as [[i E]|[resp E]].
    + rewrite !E. apply put_task_twice.
    + by rewrite !E.
  - intros Hm Hs. destruct (handle_delete public r Hm) as [[i E]|[resp E]].
    + rewrite !E. apply delete_task_twice, reachable_ids_fresh, Hs.
    + by rewrite !E.
Qed.

(** Renaming and ticking the one stored task twice; deleting it twice. *)
Lemma put_and_delete_idempotent_witness :
  handle public_dir
    (request PUT ["api"; "tasks"; "1"]%string
       (object [("title", JStr (u16 "Buy bread"));
                ("completed", JNum 1)]%string) "")
    (handle public_dir
       (request PUT ["api"; "tasks"; "1"]%string
          (object [("title", JStr (u16 "Buy bread"));
                   ("completed", JNum 1)]%string) "")
       one_task).2
  = handle public_dir
      (request PUT ["api"; "tasks"; "1"]%string
         (object [("title", JStr (u16 "Buy bread"));
                  ("completed", JNum 1)]%string) "")
      one_task
  ∧ (handle public_dir
       (request DELETE ["api"; "tasks"; "1"]%string (object []) "")
       (handle public_dir
          (request DELETE ["api"; "tasks"; "1"]%string (object []) "")
          one_task).2).2
    = (handle public_dir
         (request DELETE ["api"; "tasks"; "1"]%string (object []) "")
         one_task).2.
Proof.
  split.
  - apply (proj1 (put_and_delete_idempotent _ _ _)). reflexivity.
  - apply (proj2 (put_and_delete_idempotent _ _ _)); [reflexivity|].
    exists public_dir, [post_milk]. vm_compute. reflexivity.
Defined.

End Repeating.

(** * What a creation stores *)

Section StoredTitle.
Import InMemory.

Lemma trimStart_split s :
  ∃ pre, s = pre ++ trimStart s ∧ Forall (λ c, is_whitespace c = true) pre.
Proof.
  induction s as [|c r (pre & IH & Hpre)]; simpl; [by exists []|].
  destruct (is_whitespace c) eqn:E.
  - exists (c :: pre). split; [simpl; by f_equal|by constructor].
  - by exists [].
Qed.

Lemma trim_padded s : padded s (trim s).
Proof.
  unfold trim, trimEnd.
  destruct (trimStart_split s) as (pre & Hs & Hpre).
  destruct (trimStart_split (reverse (trimStart s))) as (k & Hk & Hkws).
  exists pre, (reverse k). split_and!; [|exact Hpre|].
  - rewrite <- reverse_app, <- Hk, reverse_involutive. exact Hs.
  - apply Forall_reverse. exact Hkws.
Qed.

Lemma trim_tight s : tight (trim s).
Proof.
  split.
  - intros c r E.
    destruct (trimEnd_prefix (trimStart s)) as [k Hk].
    fold (trim s) in Hk. rewrite E in Hk.
    destruct (trimStart_head s) as [E0|(c' & r' & E1 & Hc)].
    + rewrite E0 in Hk. discriminate.
    + rewrite E1 in Hk. simpl in Hk. by injection Hk as -> _.
  - intros c r E. unfold trim, trimEnd in E.
    apply (f_equal reverse) in E.
    rewrite reverse_involutive, reverse_snoc in E.
    destruct (trimStart_head (reverse (trimStart s)))
      as [E0|(c' & r' & E1 & Hc)].
    + rewrite E0 in E. discriminate.
    + rewrite E1 in E. by injection E as -> _.
Qed.

(** X6: the title a creation stores is the submitted title without the white
    space at its two ends: the submitted string is the stored one between two
    runs of white space, and the stored one is not empty and neither starts
    nor ends with white space. *)
Theorem created_title_is_body_title_trimmed c b s t :
  payload (post_tasks c b s).1 = OneTask t →
  ∃ x y, prop "title" b = Some (JStr x) ∧ title t = JStr y
         ∧ padded x y ∧ tight y ∧ y ≠ [].
Proof.
  intros H.
  destruct (post_tasks_created c b s t H) as (x & Hb & Hx & -> & _).
  exists x, (trim x). split_and!; try done.
  - apply trim_padded.
  - apply trim_tight.
Qed.

(** A title between a tab and two blanks. *)
Lemma created_title_is_body_title_trimmed_witness :
  ∃ x y,
    prop "title" (object [("title", JStr (0x09%N :: u16 "Buy milk  "))]%string)
      = Some (JStr x)
    ∧ title milk = JStr y ∧ padded x y ∧ tight y ∧ y ≠ [].
Proof.
  apply (created_title_is_body_title_trimmed
           (u16 "2024-05-01T09:00:00.000Z") _ init).
  vm_compute. reflexivity.
Defined.

End StoredTitle.

(** * When the server throws *)

Section ServerError.
Import InMemory.




End ServerError.

(** * The page script against the server *)

Section Page.
Import InMemory.

Lemma handle_api_put public c i b s :
  plain i = true →
  handle public (Client.api c [u16 "tasks"; i] PUT (Some b)) s
  = put_task i b s.
Proof.
  intros Hi. unfold Client.api. simpl.
  by rewrite handle_id_path.
Qed.

Lemma handle_api_delete public c i s :
  plain i = true →
  handle public (Client.api c [u16 "tasks"; i] DELETE None) s
  = delete_task i s.
Proof.
  intros Hi. unfold Client.api. simpl.
  by rewrite handle_id_path.
Qed.


Lemma prop_singleton k v : prop k (object [(k, v)]) = Some v.
Proof. unfold object. simpl. apply lookup_insert_eq. Qed.

Lemma prop_title_of_completed v :
  prop "title" (object [("completed", v)]%string) = None.
Proof.
  unfold object. simpl. rewrite lookup_insert_ne; [apply lookup_empty|].
  discriminate.
Qed.

Lemma handle_post_cases public r :
  method r = POST →
  (∀ s, handle public r s = post_tasks (now r) (body r) s)
  ∨ (∃ resp, ∀ s, handle public r s = (resp, s)).
Proof.
  intros Hm.
  destruct (handle_shape public r)
    as [(_ & _ & E)|[(i & p & Hm' & _)
       |[(i & p & Hm' & _)|[(Hm' & _)|(resp & E & _)]]]];
    eauto; rewrite Hm in Hm'; discriminate.
Qed.

Lemma titles_ok_put p b s :
  prop "title" b = None → titles_ok s → titles_ok (put_task p b s).2.
Proof.
  intros Hb Hs. unfold put_task. rewrite Hb.
  destruct (find (parseInt p) (tasks s)) as [[i t]|] eqn:E; [|exact Hs].
  apply find_Some in E as [Hi _]. simpl.
  apply Forall_insert; [exact Hs|].
  unfold titles_ok in Hs. rewrite Forall_lookup in Hs.
  specialize (Hs i t Hi). by destruct (prop "completed" b).
Qed.

Lemma titles_ok_handle public r s :
  (method r = PUT → prop "title" (body r) = None) →
  titles_ok s → titles_ok (handle public r s).2.
Proof.
  intros Hr Hs.
  destruct (decide (method r = PUT)) as [Hm|Hput].
  { destruct (handle_put public r Hm) as [[i E]|[resp E]]; rewrite E;
      [|exact Hs].
    apply titles_ok_put; auto. }
  destruct (decide (method r = DELETE)) as [Hm|Hdel].
  { destruct (handle_delete public r Hm) as [[i E]|[resp E]]; rewrite E;
      [by apply titles_ok_delete|exact Hs]. }
  destruct (decide (method r = POST)) as [Hm|Hpost].
  { destruct (handle_post_cases public r Hm) as [E|[resp E]]; rewrite E;
      [by apply titles_ok_post|exact Hs]. }
  by rewrite handle_other.
Qed.

Lemma sends_leaves_title r :
  Client.sends r → method r = PUT → prop "title" (body r) = None.
Proof.
  intros [c|c v r' E|c it box|c it r' E] Hm.
  - discriminate Hm.
  - unfold Client.on_submit in E. case_match; [discriminate E|].
    injection E as <-. discriminate Hm.
  - apply prop_title_of_completed.
  - injection E as <-. discriminate Hm.
Qed.

(** X8: stored titles stay non-empty and trimmed as long as no PUT carries a
    title; the page script never sends one (its only PUT carries completed
    alone), so every session of requests the page script sends to a server
    that started empty keeps every stored title well formed. *)
Theorem page_script_keeps_titles public rs :
  (∀ s, Forall (λ r, method r = PUT → prop "title" (body r) = None) rs →
        titles_ok s → titles_ok (serve public rs s).2)
  ∧ (Forall Client.sends rs → titles_ok (serve public rs init).2).
Proof.
  assert (H : ∀ s,
    Forall (λ r, method r = PUT → prop "title" (body r) = None) rs →
    titles_ok s → titles_ok (serve public rs s).2).
  { induction rs as [|r rs IH]; intros s Hrs Hs; [exact Hs|].
    apply Forall_cons in Hrs as [Hr Hrs]. rewrite serve_cons. simpl.
    apply IH; [exact Hrs|]. by apply titles_ok_handle. }
  split; [exact H|].
  intros Hrs. apply H; [|apply Forall_nil_2].
  eapply Forall_impl; [exact Hrs|]. apply sends_leaves_title.
Qed.

(** The page is loaded, a task is typed in, ticked off and deleted. *)
Lemma page_script_keeps_titles_witness :
  titles_ok
    (serve public_dir
       [Client.load [];
        Client.api [] [u16 "tasks"] POST
          (Some (object [("title", JStr (u16 "Buy milk"))]%string));
        Client.on_change [] (Client.entry milk) true;
        Client.api [] [u16 "tasks"; number_to_string 1] DELETE None]
       init).2.
Proof.
  apply (proj2 (page_script_keeps_titles _ _)).
  repeat apply Forall_cons_2; [| | | |apply Forall_nil_2].
  - apply Client.sends_load.
  - apply (Client.sends_submit [] (u16 " Buy milk ")). reflexivity.
  - apply Client.sends_change.
  - apply (Client.sends_delete [] (Client.entry milk)). reflexivity.
Defined.

(** X9: the listeners of a list entry act on the task the entry shows.  On a
    store the server can be in, setting the check box of the entry of a stored
    task stores that state as the completed flag of this task, at its place,
    and changes nothing else; confirming its delete button removes this task
    and no other. *)
Theorem entry_listeners_hit_their_task public c s i t box :
  reachable s → tasks s !! i = Some t →
  handle public (Client.on_change c (Client.entry t) box) s
  = ({| status := 200;
        payload := OneTask {| id := id t; title := title t;
                              completed := JBool box;
                              createdAt := createdAt t |} |},
     {| tasks := <[i := {| id := id t; title := title t;
                           completed := JBool box;
                           createdAt := createdAt t |}]> (tasks s);
        nextId := nextId s |})
  ∧ ∃ r, Client.on_delete c (Client.entry t) true = Some r
         ∧ handle public r s
           = ({| status := 200; payload := OneTask t |},
              {| tasks := delete i (tasks s); nextId := nextId s |}).
Proof.
  intros Hs Hi.
  destruct (reachable_ids_fresh s Hs) as [_ Hnd].
  pose proof (find_listed (tasks s) i t Hnd Hi) as Hfind.
  rewrite <- (parseInt_number_to_string (id t)) in Hfind.
  split.
  - unfold Client.on_change. simpl.
    rewrite handle_api_put by apply number_to_string_plain.
    unfold put_task. rewrite Hfind.
    rewrite prop_title_of_completed, prop_singleton. reflexivity.
  - eexists. split; [reflexivity|]. simpl.
    rewrite handle_api_delete by apply number_to_string_plain.
    pose proof (delete_task_cases (number_to_string (id t)) s) as H.
    by rewrite Hfind in H.
Qed.

(** Ticking off and deleting the one stored task. *)
Lemma entry_listeners_hit_their_task_witness :
  handle public_dir (Client.on_change [] (Client.entry milk) true) one_task
  = ({| status := 200;
        payload := OneTask {| id := id milk; title := title milk;
                              completed := JBool true;
                              createdAt := createdAt milk |} |},
     {| tasks := <[0%nat := {| id := id milk; title := title milk;
                               completed := JBool true;
                               createdAt := createdAt milk |}]>
                   (tasks one_task);
        nextId := nextId one_task |})
  ∧ ∃ r, Client.on_delete [] (Client.entry milk) true = Some r
         ∧ handle public_dir r one_task
           = ({| status := 200; payload := OneTask milk |},
              {| tasks := delete 0%nat (tasks one_task);
                 nextId := nextId one_task |}).
Proof.
  apply entry_listeners_hit_their_task.
  - exists public_dir, [post_milk]. vm_compute. reflexivity.
  - reflexivity.
Defined.


Lemma StronglySorted_reverse {A} (R : relation A) (l : list A) :
  StronglySorted R l → StronglySorted (flip R) (reverse l).
Proof.
  induction 1 as [|x l _ IH Hx]; [constructor|].
  rewrite reverse_cons. apply StronglySorted_app_2.
  - intros x1 x2 Hx1 ->%list_elem_of_singleton.
    rewrite elem_of_reverse in Hx1. rewrite Forall_forall in Hx.
    by apply Hx.
  - exact IH.
  - repeat constructor.
Qed.

(** X11: the page lists the newest task first.  For the array of a server that
    started empty, [render] shows the line for an empty list exactly when the
    array is empty, and otherwise one entry per task, in the reverse of the
    order of the array, which is the order of decreasing ids. *)
Theorem render_newest_first public rs :
  match Client.render (tasks (serve public rs init).2) with
  | None => tasks (serve public rs init).2 = []
  | Some items =>
      tasks (serve public rs init).2 ≠ []
      ∧ Client.subject <$> items
        = reverse (id <$> tasks (serve public rs init).2)
      ∧ StronglySorted (flip Z.lt) (Client.subject <$> items)
  end.
Proof.
  pose proof (served_ids_increasing public rs) as Hs.
  unfold Client.render.
  destruct (tasks (serve public rs init).2) as [|t l] eqn:E; [done|].
  simpl bool_decide. cbv iota.
  assert (Hsub : Client.subject <$> (Client.entry <$> reverse (t :: l))
                 = reverse (id <$> t :: l)).
  { rewrite <- list_fmap_compose, fmap_reverse. reflexivity. }
  split_and!; [done|exact Hsub|].
  rewrite Hsub. by apply StronglySorted_reverse.
Qed.

End Page.

(** * The React front end *)

Section FrontendFacts.
Import Frontend.

Lemma trim_length s : (length (trim s) ≤ length s)%nat.
Proof.
  destruct (trim_padded s) as (pre & post & E & _).
  rewrite E at 2. rewrite !length_app. lia.
Qed.

Lemma validate_empty f :
  validate f = ∅
  ↔ trim (title_state f) ≠ []
    ∧ (length (title_state f) ≤ 100)%nat
    ∧ (length (description_state f) ≤ 500)%nat.
Proof.
  unfold validate. repeat case_bool_decide; split;
    try (intros E; by apply insert_non_empty in E);
    try (intros (? & ? & ?); done || lia);
    intros _; split_and!; done || lia.
Qed.

(** X12: the form hands a task to [onSave] exactly when the title is not blank
    and has at most 100 characters and the description has at most 500; the
    task handed over has a title that is trimmed, not empty and at most 100
    characters long, a description that is either absent or trimmed, not
    empty and at most 500 characters long, the chosen status and no id. *)
Theorem submitted_task_is_well_formed f :
  (is_Some (handleSubmit f)
   ↔ trim (title_state f) ≠ []
     ∧ (length (title_state f) ≤ 100)%nat
     ∧ (length (description_state f) ≤ 500)%nat)
  ∧ ∀ t, handleSubmit f = Some t →
      title t ≠ [] ∧ trim (title t) = title t ∧ (length (title t) ≤ 100)%nat
      ∧ (∀ d, description t = Some d →
           d ≠ [] ∧ trim d = d ∧ (length d ≤ 500)%nat)
      ∧ status t = status_state f
      ∧ id t = None.
Proof.
  split.
  - rewrite <- validate_empty. unfold handleSubmit.
    destruct (decide (validate f = ∅)) as [E|E].
    + rewrite bool_decide_eq_true_2 by done. split; [done|]. by eexists.
    + rewrite bool_decide_eq_false_2 by done. split; [|done].
      by intros [t ?].
  - intros t. unfold handleSubmit.
    destruct (decide (validate f = ∅)) as [Hv|Hv];
      [rewrite bool_decide_eq_true_2 by done
      |rewrite bool_decide_eq_false_2 by done; discriminate].
    intros [= <-]. simpl.
    apply validate_empty in Hv as (Ht & Hlen & Hdesc).
    split_and!; try done.
    + apply trim_idempotent.
    + pose proof (trim_length (title_state f)). lia.
    + intros d. case_bool_decide as Hd; [discriminate|].
      intros [= <-]. split_and!; [done|apply trim_idempotent|].
      pose proof (trim_length (description_state f)). lia.
Qed.

(** A form with a padded title and a blank description. *)
Lemma submitted_task_is_well_formed_witness :
  is_Some (handleSubmit
             {| title_state := u16 "  Buy milk ";
                description_state := u16 "  ";
                status_state := Jpa.TODO; dueDate_state := [] |})
  ∧ (title {| id := None; title := u16 "Buy milk"; description := None;
              status := Jpa.TODO; dueDate := None |} ≠ []
     ∧ trim (u16 "Buy milk") = u16 "Buy milk"
     ∧ (length (u16 "Buy milk") ≤ 100)%nat
     ∧ (∀ d, @None jsstring = Some d →
          d ≠ [] ∧ trim d = d ∧ (length d ≤ 500)%nat)
     ∧ Jpa.TODO = Jpa.TODO
     ∧ @None Z = None).
Proof.
  split.
  - apply (proj1 (submitted_task_is_well_formed _)).
    vm_compute. split_and!; [discriminate|lia|lia].
  - apply (proj2 (submitted_task_is_well_formed
                    {| title_state := u16 "  Buy milk ";
                       description_state := u16 "  ";
                       status_state := Jpa.TODO; dueDate_state := [] |})
             {| id := None; title := u16 "Buy milk"; description := None;
                status := Jpa.TODO; dueDate := None |}).
    reflexivity.
Defined.

Lemma insert_front cmp x l :
  Forall (λ y, negative (cmp y x) = false) l → insert cmp x l = x :: l.
Proof.
  destruct l as [|y l]; [done|]. intros [Hy _]%Forall_cons.
  simpl. by rewrite Hy.
Qed.

Lemma insert_skip cmp x l1 l2 :
  Forall (λ y, negative (cmp y x) = true) l1 →
  insert cmp x (l1 ++ l2) = l1 ++ insert cmp x l2.
Proof.
  induction 1 as [|y l1 Hy _ IH]; [done|].
  simpl. by rewrite Hy, IH.
Qed.

Lemma insert_Permutation cmp x l : insert cmp x l ≡ₚ x :: l.
Proof.
  induction l as [|y l IH]; [done|]. simpl.
  destruct (negative (cmp y x)); [|done].
  rewrite IH. apply Permutation_swap.
Qed.

Lemma sort_Permutation cmp l : sort cmp l ≡ₚ l.
Proof.
  induction l as [|x l IH]; [done|]. simpl.
  by rewrite insert_Permutation, IH.
Qed.

Lemma filter_status_order (s : Jpa.TaskStatus) (Q : Task → Prop)
    (l : list Task) :
  (∀ t, status t = s → Q t) → Forall Q (filter (λ t, status t = s) l).
Proof.
  intros HQ. apply Forall_forall. intros t Ht.
  apply list_elem_of_filter in Ht as [Ht _]. by apply HQ.
Qed.

(** X13: what the list shows under each sort choice.  Without a sort the tasks
    stay in the order they were fetched; sorted by status the TODO tasks come
    first, then those in progress, then the done ones, each group in the
    fetched order; under every choice the tasks shown are the fetched tasks,
    rearranged. *)
Theorem sortedTasks_by_status getTime l :
  sortedTasks getTime SortNone l = l
  ∧ sortedTasks getTime SortStatus l
    = filter (λ t, status t = Jpa.TODO) l
      ++ filter (λ t, status t = Jpa.IN_PROGRESS) l
      ++ filter (λ t, status t = Jpa.DONE) l
  ∧ ∀ sortBy, sortedTasks getTime sortBy l ≡ₚ l.
Proof.
  split_and!.
  - unfold sortedTasks, sort. induction l as [|x l IH]; [done|].
    simpl. rewrite IH. by destruct l.
  - unfold sortedTasks, sort. induction l as [|x l IH]; [done|].
    simpl foldr. rewrite IH. clear IH.
    rewrite !(filter_cons _ x).
    destruct (status x) eqn:Hx; repeat case_decide; try congruence.
    + apply insert_front. rewrite !Forall_app. split_and!;
        apply filter_status_order; intros t Ht;
        simpl; rewrite Hx, Ht; reflexivity.
    + rewrite insert_skip.
      * f_equal. apply insert_front. rewrite !Forall_app. split;
          apply filter_status_order; intros t Ht;
          simpl; rewrite Hx, Ht; reflexivity.
      * apply filter_status_order; intros t Ht;
          simpl; rewrite Hx, Ht; reflexivity.
    + rewrite (app_assoc _ _ (filter _ l)), insert_skip.
      * rewrite <- app_assoc. do 2 f_equal. apply insert_front.
        apply filter_status_order; intros t Ht;
          simpl; rewrite Hx, Ht; reflexivity.
      * rewrite Forall_app. split;
          apply filter_status_order; intros t Ht;
          simpl; rewrite Hx, Ht; reflexivity.
  - intros sortBy. apply sort_Permutation.
Qed.

Lemma due_asymmetric getTime a b :
  dated getTime a → dated getTime b →
  negative (comparator getTime SortDueDate a b) = true →
  negative (comparator getTime SortDueDate b a) = false.
Proof.
  unfold comparator. intros [->|[za ->]] [->|[zb ->]]; simpl; try done.
  intros H%Z.ltb_lt. apply Z.ltb_ge. lia.
Qed.

Lemma due_negatively_transitive getTime a b c :
  dated getTime a → dated getTime b → dated getTime c →
  negative (comparator getTime SortDueDate b a) = false →
  negative (comparator getTime SortDueDate c b) = false →
  negative (comparator getTime SortDueDate c a) = false.
Proof.
  unfold comparator.
  intros [->|[za ->]] [->|[zb ->]] [->|[zc ->]]; simpl; try done.
  intros H1%Z.ltb_ge H2%Z.ltb_ge. apply Z.ltb_ge. lia.
Qed.

Lemma insert_by_due_sorted getTime x l :
  dated getTime x → Forall (dated getTime) l →
  StronglySorted (not_before (comparator getTime SortDueDate)) l →
  StronglySorted (not_before (comparator getTime SortDueDate))
    (insert (comparator getTime SortDueDate) x l).
Proof.
  intros Hx Hl Hs. induction Hs as [|y r Hs IH Hy]; cbn [insert].
  - repeat constructor.
  - apply Forall_cons in Hl as [Hdy Hr].
    destruct (negative (comparator getTime SortDueDate y x)) eqn:E.
    + apply SSorted_cons; [by apply IH|].
      rewrite insert_Permutation. apply Forall_cons. split; [|exact Hy].
      by apply due_asymmetric.
    + apply SSorted_cons; [by apply SSorted_cons|].
      apply Forall_cons. split; [exact E|].
      rewrite Forall_forall in Hy, Hr |- *. intros z Hz.
      apply (due_negatively_transitive getTime x y z); auto.
      by apply Hy.
Qed.

(** X14: sorted by due date, provided every due date that is present has a
    time, no task comes before a task that is due strictly earlier, a task
    without due date counting as due last: the due times never decrease along
    the list, and the tasks without due date are at its end. *)
Theorem sortedTasks_by_dueDate getTime l :
  Forall (dated getTime) l →
  StronglySorted (not_before (comparator getTime SortDueDate))
    (sortedTasks getTime SortDueDate l)
  ∧ ∀ l1 a l2,
      sortedTasks getTime SortDueDate l = l1 ++ a :: l2 →
      due getTime a = PosInf →
      Forall (λ b, due getTime b = PosInf) l2.
Proof.
  intros Hl.
  assert (Hs : StronglySorted (not_before (comparator getTime SortDueDate))
                 (sortedTasks getTime SortDueDate l)).
  { unfold sortedTasks, sort.
    induction Hl as [|x l Hx Hl IH]; [constructor|]. simpl.
    apply insert_by_due_sorted; [exact Hx| |exact IH].
    fold (sort (comparator getTime SortDueDate) l).
    by rewrite sort_Permutation. }
  split; [exact Hs|].
  intros l1 a l2 E Ha. rewrite E in Hs.
  apply StronglySorted_app_1_r, StronglySorted_cons in Hs as [Hafter _].
  assert (Hd : Forall (dated getTime) l2).
  { assert (Hall : Forall (dated getTime) (l1 ++ a :: l2)).
    { rewrite <- E. unfold sortedTasks. by rewrite sort_Permutation. }
    by apply Forall_app in Hall as [_ [_ ?]%Forall_cons]. }
  rewrite Forall_forall in Hafter, Hd |- *. intros b Hb.
  specialize (Hafter b Hb). specialize (Hd b Hb).
  unfold not_before, comparator in Hafter. rewrite Ha in Hafter.
  destruct Hd as [->|[z Hz]]; [done|]. rewrite Hz in Hafter. done.
Qed.

(** A task without due date fetched before a task with one; as the time of a
    date its year is taken. *)
Lemma sortedTasks_by_dueDate_witness :
  StronglySorted
    (not_before (comparator (λ d, Fin (default 0 (parseInt d))) SortDueDate))
    (sortedTasks (λ d, Fin (default 0 (parseInt d))) SortDueDate
       [ {| id := Some 1; title := u16 "a"; description := None;
            status := Jpa.TODO; dueDate := None |};
         {| id := Some 2; title := u16 "b"; description := None;
            status := Jpa.DONE; dueDate := Some (u16 "2025-12-31") |} ])
  ∧ ∀ l1 a l2,
      sortedTasks (λ d, Fin (default 0 (parseInt d))) SortDueDate
        [ {| id := Some 1; title := u16 "a"; description := None;
             status := Jpa.TODO; dueDate := None |};
          {| id := Some 2; title := u16 "b"; description := None;
             status := Jpa.DONE; dueDate := Some (u16 "2025-12-31") |} ]
      = l1 ++ a :: l2 →
      due (λ d, Fin (default 0 (parseInt d))) a = PosInf →
      Forall (λ b, due (λ d, Fin (default 0 (parseInt d))) b = PosInf) l2.
Proof.
  apply sortedTasks_by_dueDate.
  repeat apply Forall_cons_2; [| |apply Forall_nil_2].
  - left. reflexivity.
  - right. eexists. reflexivity.
Defined.

End FrontendFacts.

(** * Replacing a task through the Spring controller *)

Section Replace.

(** X15: an update through the Spring controller replaces the task as a whole.
    When it answers 200, the task returned and stored under the id is the one
    bound from the body, with the id of the path: nothing of the previous
    title, description, status or due date is kept, so a field the body omits
    is reset; the other rows are left alone, and sending the update again
    changes nothing.  When it answers 400 or 404 the table is unchanged. *)
Theorem jpa_update_replaces_the_task i b r :
  match (Jpa.update i b r).1 with
  | Jpa.Ok t' =>
      t' = Jpa.entity i (Jpa.columns (Jpa.bind b))
      ∧ Jpa.findById i (Jpa.update i b r).2 = Some t'
      ∧ (∀ j, j ≠ i →
           Jpa.findById j (Jpa.update i b r).2 = Jpa.findById j r)
      ∧ Jpa.update i b (Jpa.update i b r).2 = Jpa.update i b r
  | _ => (Jpa.update i b r).2 = r
  end.
Proof.
  destruct (Jpa.valid (Jpa.bind b)) eqn:Hv.
  - destruct (Jpa.findById i r) as [t|] eqn:Hf.
    + rewrite (jpa_update_found _ _ _ _ Hv Hf). simpl.
      assert (Hnew : Jpa.findById i
                {| Jpa.rows := <[i := Jpa.columns (Jpa.bind b)]> (Jpa.rows r);
                   Jpa.next := Jpa.next r |}
              = Some (Jpa.entity i (Jpa.columns (Jpa.bind b)))).
      { unfold Jpa.findById. simpl. by rewrite lookup_insert_eq. }
      split_and!; [done|exact Hnew| |].
      * intros j Hj. unfold Jpa.findById. simpl.
        by rewrite lookup_insert_ne.
      * rewrite (jpa_update_found _ _ _ _ Hv Hnew). simpl.
        by rewrite insert_insert_eq.
    + unfold Jpa.update. by rewrite Hv, Hf.
  - unfold Jpa.update. by rewrite Hv.
Qed.

End Replace.

(** * Reads *)

Section Reads.
Import InMemory.




End Reads.
